(** * Cortex memory engine: chunk codec, chunk storage, audit log,
      semantic index facade and the MemoryStore orchestrator.

    A shallow embedding of the TypeScript sources
      - memory.types.ts      (Chunk, defaults, required fields)
      - memory.storage.ts    (slugify, codec, ChunkStorage)
      - memory.audit.ts      (AuditLog)
      - memory.embedding.ts  (SemanticIndex)
      - memory.index.ts      (MemoryStore)
    followed by the properties established about them.

    Conventions of the embedding.
      - A JavaScript string is a [string]; one character stands for one
        code unit, and only code units below 256 are represented.
      - A JavaScript number that the code uses as a counter is a [Z];
        slots of the nearest-neighbour backend are [nat].
      - An exception is a value [Err e]; state written before the throw
        stays written, as in JavaScript.
      - The operating system (chunk directory, audit file, clock, random
        source) is part of the explicit program state. *)

From Stdlib Require Import ZArith Lia Ascii String List.
From stdpp Require Import gmap strings list fin_maps sorting.

Open Scope Z_scope.

(* ===================================================================== *)
(** * Strings as JavaScript uses them                                      *)
(* ===================================================================== *)

Module Js.

(** [s.split(sep)] for a one-character separator: never the empty list. *)
Fixpoint split (sep : ascii) (s : string) : list string :=
  match s with
  | EmptyString => [EmptyString]
  | String a r =>
      if Ascii.eqb a sep then EmptyString :: split sep r
      else match split sep r with
           | [] => [String a EmptyString]
           | x :: xs => String a x :: xs
           end
  end.

(** [parts.join(sep)] for a one-character separator. *)
Fixpoint join (sep : ascii) (parts : list string) : string :=
  match parts with
  | [] => EmptyString
  | [x] => x
  | x :: xs => x +:+ String sep (join sep xs)
  end.

(** [arr.indexOf(x, from)], as an offset from the start of the array. *)
Fixpoint indexOf (x : string) (from : nat) (arr : list string) : option nat :=
  match arr with
  | [] => None
  | y :: ys =>
      match from with
      | O => if String.eqb y x then Some O else S <$> indexOf x O ys
      | S f => S <$> indexOf x f ys
      end
  end.

(** [arr.slice(i, j)] and [arr.slice(i)] for in-range, non-negative bounds. *)
Definition slice {A} (i j : nat) (arr : list A) : list A := take (j - i) (drop i arr).
Definition sliceFrom {A} (i : nat) (arr : list A) : list A := drop i arr.

(** White space and line terminators stripped by [trim] (code units < 256). *)
Definition isSpace (a : ascii) : bool :=
  match a with
  | "009" | "010" | "011" | "012" | "013" | " " | "160" => true
  | _ => false
  end%char.

(** Strip the longest prefix, resp. suffix, of characters satisfying [p]:
    the regular expressions [^p+] and [p+$] replaced by the empty string. *)
Fixpoint stripStart (p : ascii -> bool) (s : string) : string :=
  match s with
  | EmptyString => EmptyString
  | String a r => if p a then stripStart p r else s
  end.

Fixpoint stripEnd (p : ascii -> bool) (s : string) : string :=
  match s with
  | EmptyString => EmptyString
  | String a r =>
      match stripEnd p r with
      | EmptyString => if p a then EmptyString else String a EmptyString
      | r' => String a r'
      end
  end.

(** [s.trim()]. *)
Definition trim (s : string) : string := stripEnd isSpace (stripStart isSpace s).

(** Truthiness of a string: non-empty. *)
Definition truthy (s : string) : bool :=
  match s with EmptyString => false | _ => true end.

(** [s.endsWith(suffix)]. *)
Definition endsWith (suffix s : string) : bool :=
  String.prefix (String.rev suffix) (String.rev s).

(** [s.slice(0, n)]. *)
Fixpoint sliceTo (n : nat) (s : string) : string :=
  match n, s with
  | S k, String a r => String a (sliceTo k r)
  | _, _ => EmptyString
  end.

(** [s.toLowerCase()] on the ASCII letters. *)
Definition lowerChar (a : ascii) : ascii :=
  let n := nat_of_ascii a in
  if (65 <=? n)%nat && (n <=? 90)%nat then ascii_of_nat (n + 32) else a.

Fixpoint toLowerCase (s : string) : string :=
  match s with
  | EmptyString => EmptyString
  | String a r => String (lowerChar a) (toLowerCase r)
  end.

End Js.

(* ===================================================================== *)
(** * memory.types.ts                                                      *)
(* ===================================================================== *)

Inductive ChunkType := framework | insight | fact | log | emotional | goal | question.
Inductive EpistemicStatus := established | working | speculative | deprecated.
Inductive LifecycleStatus := active | dormant | review | archived.

Record ChunkRelation := { rel_id : string; rel_reason : string }.

Record Chunk := {
  c_id : string;
  c_content : string;
  c_summary : string;
  c_type : ChunkType;
  c_epistemic : EpistemicStatus;
  c_status : LifecycleStatus;
  c_surface_tags : list string;
  c_related : list ChunkRelation;
  c_created : string;
  c_updated : string;
  c_accessed : string;
  c_retrieved_count : Z;
  c_relevant_count : Z;
  c_last_relevant_date : option string;   (* null is [None] *)
  c_expires : option string;              (* optional field *)
  c_context_notes : option string;        (* optional field *)
}.

(** [Partial<Chunk>]: [None] is an absent key. For the two optional fields
    and the nullable date a present key may carry undefined or null. *)
Record PartialChunk := {
  p_id : option string;
  p_content : option string;
  p_summary : option string;
  p_type : option ChunkType;
  p_epistemic : option EpistemicStatus;
  p_status : option LifecycleStatus;
  p_surface_tags : option (list string);
  p_related : option (list ChunkRelation);
  p_created : option string;
  p_updated : option string;
  p_accessed : option string;
  p_retrieved_count : option Z;
  p_relevant_count : option Z;
  p_last_relevant_date : option (option string);
  p_expires : option (option string);
  p_context_notes : option (option string);
}.

Definition emptyPartial : PartialChunk :=
  {| p_id := None; p_content := None; p_summary := None; p_type := None;
     p_epistemic := None; p_status := None; p_surface_tags := None;
     p_related := None; p_created := None; p_updated := None;
     p_accessed := None; p_retrieved_count := None; p_relevant_count := None;
     p_last_relevant_date := None; p_expires := None; p_context_notes := None |}.

(** The object spread [{ ...base, ...m }]. *)
Definition spread (base : Chunk) (m : PartialChunk) : Chunk :=
  {| c_id := default (c_id base) (p_id m);
     c_content := default (c_content base) (p_content m);
     c_summary := default (c_summary base) (p_summary m);
     c_type := default (c_type base) (p_type m);
     c_epistemic := default (c_epistemic base) (p_epistemic m);
     c_status := default (c_status base) (p_status m);
     c_surface_tags := default (c_surface_tags base) (p_surface_tags m);
     c_related := default (c_related base) (p_related m);
     c_created := default (c_created base) (p_created m);
     c_updated := default (c_updated base) (p_updated m);
     c_accessed := default (c_accessed base) (p_accessed m);
     c_retrieved_count := default (c_retrieved_count base) (p_retrieved_count m);
     c_relevant_count := default (c_relevant_count base) (p_relevant_count m);
     c_last_relevant_date := default (c_last_relevant_date base) (p_last_relevant_date m);
     c_expires := default (c_expires base) (p_expires m);
     c_context_notes := default (c_context_notes base) (p_context_notes m) |}.

(** Errors the engine raises, by kind. *)
Inductive error :=
  | MissingRequiredField (field : string)
  | ChunkNotFound (id : string)
  | InvalidFormat (filename : string)
  | CapacityExceeded
  | IdExhausted
  | EmbedderUnavailable
  | IndexNotInitialized
  | EmbedderFailure
  | BackendFailure
  | AuditAppendFailure
  | LoopFuelExhausted.   (* an artefact of bounding a [while] by fuel *)

Inductive result (A : Type) :=
  | Ok (a : A)
  | Err (e : error).
Arguments Ok {A} a.
Arguments Err {A} e.

Definition isOk {A} (r : result A) : bool :=
  match r with Ok _ => true | Err _ => false end.

(* ===================================================================== *)
(** * memory.storage.ts: identifiers, slugs, file names                    *)
(* ===================================================================== *)

(** [buf.toString('hex')] for one byte: two lowercase hex digits. *)
Definition hexDigit (n : N) : ascii :=
  match n with
  | 0 => "0" | 1 => "1" | 2 => "2" | 3 => "3" | 4 => "4" | 5 => "5"
  | 6 => "6" | 7 => "7" | 8 => "8" | 9 => "9" | 10 => "a" | 11 => "b"
  | 12 => "c" | 13 => "d" | 14 => "e" | _ => "f"
  end%N%char.

Definition hexOfByte (b : Byte.byte) : string :=
  let n := Byte.to_N b in
  String (hexDigit (n / 16)) (String (hexDigit (n mod 16)) EmptyString).

(** Three random bytes, as [crypto.randomBytes(3)] yields them. *)
Definition bytes3 : Type := Byte.byte * Byte.byte * Byte.byte.

Definition hexOfBytes3 (b : bytes3) : string :=
  let '(b0, b1, b2) := b in hexOfByte b0 +:+ hexOfByte b1 +:+ hexOfByte b2.

(** The pattern [/^[a-f0-9]{6}$/]. *)
Definition isHexChar (a : ascii) : bool :=
  let n := nat_of_ascii a in
  ((48 <=? n)%nat && (n <=? 57)%nat) || ((97 <=? n)%nat && (n <=? 102)%nat).

Fixpoint allChars (p : ascii -> bool) (s : string) : bool :=
  match s with
  | EmptyString => true
  | String a r => p a && allChars p r
  end.

Definition isHexId (s : string) : bool :=
  (String.length s =? 6)%nat && allChars isHexChar s.

(** The character class [[a-z0-9]]. *)
Definition isAlnum (a : ascii) : bool :=
  let n := nat_of_ascii a in
  ((48 <=? n)%nat && (n <=? 57)%nat) || ((97 <=? n)%nat && (n <=? 122)%nat).

Definition isDash (a : ascii) : bool := Ascii.eqb a "-".

(** [.replace(/[^a-z0-9]+/g, '-')]: every maximal run of other characters
    becomes one dash. [inRun] tells that the run has been replaced already. *)
Fixpoint dashRuns (inRun : bool) (s : string) : string :=
  match s with
  | EmptyString => EmptyString
  | String a r =>
      if isAlnum a then String a (dashRuns false r)
      else if inRun then dashRuns true r
      else String "-" (dashRuns true r)
  end.

Definition slugify (text : string) : string :=
  Js.stripEnd isDash
    (Js.sliceTo 15
       (Js.stripEnd isDash (Js.stripStart isDash
          (dashRuns false (Js.toLowerCase text))))).

Definition getFilename (id summary : string) : string :=
  id +:+ "-" +:+ slugify summary +:+ ".md".

(** The identifier a file name announces: [filename.split('-')[0]]. *)
Definition idOfFilename (filename : string) : string :=
  hd EmptyString (Js.split "-" filename).

(* ===================================================================== *)
(** * memory.storage.ts: the chunk codec                                   *)
(* ===================================================================== *)

(** The object handed to and obtained from the YAML package. The typed
    embedding keeps the headers that carry the eight scalar fields the
    store always writes; a key that may be missing is an [option]. *)
Record Header := {
  h_id : string;
  h_summary : string;
  h_type : ChunkType;
  h_epistemic : EpistemicStatus;
  h_status : LifecycleStatus;
  h_surface_tags : option (list string);
  h_created : string;
  h_updated : string;
  h_accessed : string;
  h_retrieved_count : option Z;
  h_relevant_count : option Z;
  h_last_relevant_date : option string;      (* null or missing: [None] *)
  h_related : option (list ChunkRelation);
  h_expires : option string;
  h_context_notes : option string;
}.

(** The [yaml] package ([stringify], [parse]) is an external collaborator.
    [parseYaml] answers [None] where the package throws or where the text
    does not denote a header of the shape above. *)
Class YamlCodec := {
  stringifyYaml : Header -> string;
  parseYaml : string -> option Header;
}.

Definition FRONTMATTER_DELIMITER : string := "---".

(** [x || fallback] on an optional string / number. *)
Definition orElseStr (x : option string) : option string :=
  match x with
  | Some s => if Js.truthy s then Some s else None
  | None => None
  end.

Definition relationKept (r : ChunkRelation) : bool :=
  Js.truthy (rel_id r) && Js.truthy (rel_reason r).

Section Codec.
Context `{YamlCodec}.

Definition headerOf (chunk : Chunk) : Header :=
  {| h_id := c_id chunk;
     h_summary := c_summary chunk;
     h_type := c_type chunk;
     h_epistemic := c_epistemic chunk;
     h_status := c_status chunk;
     h_surface_tags := Some (c_surface_tags chunk);
     h_created := c_created chunk;
     h_updated := c_updated chunk;
     h_accessed := c_accessed chunk;
     h_retrieved_count := Some (c_retrieved_count chunk);
     h_relevant_count := Some (c_relevant_count chunk);
     h_last_relevant_date := c_last_relevant_date chunk;
     h_related :=
       match c_related chunk with
       | [] => None
       | rs => Some rs
       end;
     h_expires := orElseStr (c_expires chunk);
     h_context_notes := orElseStr (c_context_notes chunk) |}.

Definition serializeChunk (chunk : Chunk) : string :=
  FRONTMATTER_DELIMITER +:+ String "010" (stringifyYaml (headerOf chunk))
    +:+ FRONTMATTER_DELIMITER +:+ String "010" (String "010" (c_content chunk)).

Definition chunkOfHeader (meta : Header) (chunkContent : string) : Chunk :=
  {| c_id := h_id meta;
     c_content := chunkContent;
     c_summary := h_summary meta;
     c_type := h_type meta;
     c_epistemic := h_epistemic meta;
     c_status := h_status meta;
     c_surface_tags := default [] (h_surface_tags meta);
     c_related := List.filter relationKept (default [] (h_related meta));
     c_created := h_created meta;
     c_updated := h_updated meta;
     c_accessed := h_accessed meta;
     c_retrieved_count := default 0 (h_retrieved_count meta);
     c_relevant_count := default 0 (h_relevant_count meta);
     c_last_relevant_date := orElseStr (h_last_relevant_date meta);
     c_expires := h_expires meta;
     c_context_notes := h_context_notes meta |}.

Definition parseChunkFile (content filename : string) : result Chunk :=
  let lines := Js.split "010" content in
  if negb (String.eqb (hd EmptyString lines) FRONTMATTER_DELIMITER) then
    Err (InvalidFormat filename)
  else
    match Js.indexOf FRONTMATTER_DELIMITER 1 lines with
    | None => Err (InvalidFormat filename)
    | Some endIndex =>
        let yamlContent := Js.join "010" (Js.slice 1 endIndex lines) in
        match parseYaml yamlContent with
        | None => Err (InvalidFormat filename)
        | Some meta =>
            let chunkContent :=
              Js.trim (Js.join "010" (Js.sliceFrom (endIndex + 1) lines)) in
            Ok (chunkOfHeader meta chunkContent)
        end
    end.

End Codec.

(* ===================================================================== *)
(** * State and exceptions                                                 *)
(* ===================================================================== *)

(** A method is a function from the state before to an outcome and the
    state after. A thrown error keeps the state reached at the throw. *)
Definition M (S A : Type) : Type := S -> result A * S.

Definition ret {S A} (a : A) : M S A := fun s => (Ok a, s).

Definition bind {S A B} (c : M S A) (k : A -> M S B) : M S B :=
  fun s =>
    match c s with
    | (Ok a, s') => k a s'
    | (Err e, s') => (Err e, s')
    end.

Definition throw {S A} (e : error) : M S A := fun s => (Err e, s).
Definition gets {S A} (f : S -> A) : M S A := fun s => (Ok (f s), s).
Definition modify {S} (f : S -> S) : M S unit := fun s => (Ok tt, f s).

Notation "'let*' x ':=' c 'in' k" := (bind c (fun x => k))
  (at level 10, x name, c at level 100, k at level 200, only parsing).

(** [for (const x of xs) body(x)]. *)
Fixpoint forEach {S A} (xs : list A) (body : A -> M S unit) : M S unit :=
  match xs with
  | [] => ret tt
  | x :: rest => let* _ := body x in forEach rest body
  end.

(** [if (cond) body]. *)
Definition when {S} (cond : bool) (body : M S unit) : M S unit :=
  if cond then body else ret tt.

(* ===================================================================== *)
(** * memory.embedding.ts: SemanticIndex                                   *)
(* ===================================================================== *)

(** The embedding model and the [hnswlib-node] index are external
    collaborators; [None] is a thrown exception. [embed] stands for the
    transformer pipeline followed by mean pooling and L2 normalisation; it
    throws where [getEmbedding] meets an unexpected tensor shape.
    [newIndex n] is [new HierarchicalNSW('cosine', dim)] after
    [initIndex(n, M, efConstruction)] and [setEf(ef)]. *)
Class Ann := {
  Vec : Type;
  Dist : Type;
  distLe : Dist -> Dist -> Prop;   (* [<=] on the distances the index reports *)
  embed : string -> option Vec;
  Backend : Type;
  newIndex : nat -> Backend;
  addPoint : Backend -> Vec -> nat -> option Backend;
  markDelete : Backend -> nat -> option Backend;
  searchKnn : Backend -> Vec -> Z -> option (list nat * list Dist);
}.

(** A JavaScript [Set<number>]: iteration follows insertion order. *)
Module JsSet.

Definition t := list nat.

Definition has (x : nat) (s : t) : bool := List.existsb (Nat.eqb x) s.

Definition add (x : nat) (s : t) : t := if has x s then s else s ++ [x].

Definition delete (x : nat) (s : t) : t :=
  List.filter (fun y => negb (y =? x)%nat) s.

Definition size (s : t) : nat := List.length s.

(** [s.values().next().value]. *)
Definition first (s : t) : option nat := head s.

End JsSet.

Arguments JsSet.add : simpl never.
Arguments JsSet.delete : simpl never.

Record QueryResult `{Ann} := { qr_id : string; qr_distance : Dist }.

Module SemanticIndex.
Section WithAnn.
Context `{Ann}.

Record t := {
  maxElements : nat;
  idToIndex : gmap string nat;
  indexToId : gmap nat string;
  nextIndex : nat;
  deletedIndices : JsSet.t;
  index : option Backend;
  embedderLoaded : bool;
}.

Definition setMaps (i2n : gmap string nat) (n2i : gmap nat string) (s : t) : t :=
  {| maxElements := maxElements s; idToIndex := i2n; indexToId := n2i;
     nextIndex := nextIndex s; deletedIndices := deletedIndices s;
     index := index s; embedderLoaded := embedderLoaded s |}.

Definition setDeleted (d : JsSet.t) (s : t) : t :=
  {| maxElements := maxElements s; idToIndex := idToIndex s;
     indexToId := indexToId s; nextIndex := nextIndex s; deletedIndices := d;
     index := index s; embedderLoaded := embedderLoaded s |}.

Definition setNextIndex (n : nat) (s : t) : t :=
  {| maxElements := maxElements s; idToIndex := idToIndex s;
     indexToId := indexToId s; nextIndex := n;
     deletedIndices := deletedIndices s; index := index s;
     embedderLoaded := embedderLoaded s |}.

Definition setIndex (b : option Backend) (s : t) : t :=
  {| maxElements := maxElements s; idToIndex := idToIndex s;
     indexToId := indexToId s; nextIndex := nextIndex s;
     deletedIndices := deletedIndices s; index := b;
     embedderLoaded := embedderLoaded s |}.

Definition setEmbedderLoaded (l : bool) (s : t) : t :=
  {| maxElements := maxElements s; idToIndex := idToIndex s;
     indexToId := indexToId s; nextIndex := nextIndex s;
     deletedIndices := deletedIndices s; index := index s;
     embedderLoaded := l |}.

(** [new SemanticIndex({ maxElements })]: [options.maxElements || 10000]. *)
Definition create (optMaxElements : option nat) : t :=
  {| maxElements := match optMaxElements with
                    | Some (S n) => S n
                    | _ => (100 * 100)%nat
                    end;
     idToIndex := ∅; indexToId := ∅; nextIndex := 0%nat;
     deletedIndices := []; index := None; embedderLoaded := false |}.

Definition reset : M t unit :=
  modify (fun s =>
    {| maxElements := maxElements s; idToIndex := ∅; indexToId := ∅;
       nextIndex := 0%nat; deletedIndices := [];
       index := Some (newIndex (maxElements s));
       embedderLoaded := embedderLoaded s |}).

Definition init : M t unit :=
  let* _ := modify (setEmbedderLoaded true) in reset.

Definition getEmbedding (text : string) : M t Vec :=
  let* loaded := gets embedderLoaded in
  if negb loaded then throw EmbedderUnavailable
  else match embed text with
       | Some v => ret v
       | None => throw EmbedderFailure
       end.

Definition removeDocument (id : string) : M t bool :=
  fun s =>
    match index s with
    | None => (Ok false, s)
    | Some b =>
        match idToIndex s !! id with
        | None => (Ok false, s)
        | Some numIndex =>
            match markDelete b numIndex with
            | Some b' =>
                (Ok true,
                 setDeleted (JsSet.add numIndex (deletedIndices s))
                   (setMaps (delete id (idToIndex s))
                            (delete numIndex (indexToId s))
                            (setIndex (Some b') s)))
            | None => (Ok false, s)
            end
        end
    end.

(** The slot an insertion receives: a freed slot if there is one, else a
    slot never used before. *)
Definition allocate : M t nat :=
  fun s =>
    match JsSet.first (deletedIndices s) with
    | Some numIndex =>
        (Ok numIndex, setDeleted (JsSet.delete numIndex (deletedIndices s)) s)
    | None =>
        (Ok (nextIndex s), setNextIndex (S (nextIndex s)) s)
    end.

Definition addDocument (id text : string) : M t unit :=
  let* ix := gets index in
  match ix with
  | None => throw IndexNotInitialized
  | Some _ =>
      let* present := gets (fun s => bool_decide (is_Some (idToIndex s !! id))) in
      let* _ := when present (let* _ := removeDocument id in ret tt) in
      let* numIndex := allocate in
      let* cap := gets maxElements in
      if (cap <=? numIndex)%nat then throw CapacityExceeded
      else
        let* embedding := getEmbedding text in
        fun s =>
          match index s with
          | None => (Err IndexNotInitialized, s)
          | Some b =>
              match addPoint b embedding numIndex with
              | None => (Err BackendFailure, s)
              | Some b' =>
                  (Ok tt,
                   setMaps (<[id := numIndex]> (idToIndex s))
                           (<[numIndex := id]> (indexToId s))
                           (setIndex (Some b') s))
              end
          end
  end.

Definition updateDocument (id text : string) : M t unit :=
  let* _ := removeDocument id in addDocument id text.

(** The loop of [query] over [result.neighbors]: a hit is kept when its
    slot maps to a truthy identifier. *)
Fixpoint collect (n2i : gmap nat string) (neighbors : list nat)
    (distances : list Dist) : list QueryResult :=
  match neighbors, distances with
  | numIndex :: ns, d :: ds =>
      match n2i !! numIndex with
      | Some id =>
          if Js.truthy id
          then {| qr_id := id; qr_distance := d |} :: collect n2i ns ds
          else collect n2i ns ds
      | None => collect n2i ns ds
      end
  | _, _ => []
  end.

Definition query (text : string) (k : Z) : M t (list QueryResult) :=
  let* ix := gets index in
  match ix with
  | None => throw IndexNotInitialized
  | Some b =>
      let* size := gets (fun s => size (idToIndex s)) in
      let actualK := Z.min k (Z.of_nat size) in
      if (actualK =? 0)%Z then ret []
      else
        let* queryEmbedding := getEmbedding text in
        match searchKnn b queryEmbedding actualK with
        | None => throw BackendFailure
        | Some (neighbors, distances) =>
            let* n2i := gets indexToId in
            ret (collect n2i neighbors distances)
        end
  end.

Definition hasDocument (id : string) (s : t) : bool :=
  bool_decide (is_Some (idToIndex s !! id)).

Definition getDocumentCount (s : t) : nat := size (idToIndex s).

Definition getAllIds (s : t) : list string := (map_to_list (idToIndex s)).*1.

End WithAnn.
End SemanticIndex.

(* ===================================================================== *)
(** * Assignments to the fields of a chunk                                 *)
(* ===================================================================== *)

Definition setId (v : string) (c : Chunk) : Chunk :=
  {| c_id := v;
     c_content := c_content c;
     c_summary := c_summary c;
     c_type := c_type c;
     c_epistemic := c_epistemic c;
     c_status := c_status c;
     c_surface_tags := c_surface_tags c;
     c_related := c_related c;
     c_created := c_created c;
     c_updated := c_updated c;
     c_accessed := c_accessed c;
     c_retrieved_count := c_retrieved_count c;
     c_relevant_count := c_relevant_count c;
     c_last_relevant_date := c_last_relevant_date c;
     c_expires := c_expires c;
     c_context_notes := c_context_notes c |}.

Definition setContent (v : string) (c : Chunk) : Chunk :=
  {| c_id := c_id c;
     c_content := v;
     c_summary := c_summary c;
     c_type := c_type c;
     c_epistemic := c_epistemic c;
     c_status := c_status c;
     c_surface_tags := c_surface_tags c;
     c_related := c_related c;
     c_created := c_created c;
     c_updated := c_updated c;
     c_accessed := c_accessed c;
     c_retrieved_count := c_retrieved_count c;
     c_relevant_count := c_relevant_count c;
     c_last_relevant_date := c_last_relevant_date c;
     c_expires := c_expires c;
     c_context_notes := c_context_notes c |}.

Definition setStatus (v : LifecycleStatus) (c : Chunk) : Chunk :=
  {| c_id := c_id c;
     c_content := c_content c;
     c_summary := c_summary c;
     c_type := c_type c;
     c_epistemic := c_epistemic c;
     c_status := v;
     c_surface_tags := c_surface_tags c;
     c_related := c_related c;
     c_created := c_created c;
     c_updated := c_updated c;
     c_accessed := c_accessed c;
     c_retrieved_count := c_retrieved_count c;
     c_relevant_count := c_relevant_count c;
     c_last_relevant_date := c_last_relevant_date c;
     c_expires := c_expires c;
     c_context_notes := c_context_notes c |}.

Definition setUpdated (v : string) (c : Chunk) : Chunk :=
  {| c_id := c_id c;
     c_content := c_content c;
     c_summary := c_summary c;
     c_type := c_type c;
     c_epistemic := c_epistemic c;
     c_status := c_status c;
     c_surface_tags := c_surface_tags c;
     c_related := c_related c;
     c_created := c_created c;
     c_updated := v;
     c_accessed := c_accessed c;
     c_retrieved_count := c_retrieved_count c;
     c_relevant_count := c_relevant_count c;
     c_last_relevant_date := c_last_relevant_date c;
     c_expires := c_expires c;
     c_context_notes := c_context_notes c |}.

Definition setAccessed (v : string) (c : Chunk) : Chunk :=
  {| c_id := c_id c;
     c_content := c_content c;
     c_summary := c_summary c;
     c_type := c_type c;
     c_epistemic := c_epistemic c;
     c_status := c_status c;
     c_surface_tags := c_surface_tags c;
     c_related := c_related c;
     c_created := c_created c;
     c_updated := c_updated c;
     c_accessed := v;
     c_retrieved_count := c_retrieved_count c;
     c_relevant_count := c_relevant_count c;
     c_last_relevant_date := c_last_relevant_date c;
     c_expires := c_expires c;
     c_context_notes := c_context_notes c |}.

Definition setRetrievedCount (v : Z) (c : Chunk) : Chunk :=
  {| c_id := c_id c;
     c_content := c_content c;
     c_summary := c_summary c;
     c_type := c_type c;
     c_epistemic := c_epistemic c;
     c_status := c_status c;
     c_surface_tags := c_surface_tags c;
     c_related := c_related c;
     c_created := c_created c;
     c_updated := c_updated c;
     c_accessed := c_accessed c;
     c_retrieved_count := v;
     c_relevant_count := c_relevant_count c;
     c_last_relevant_date := c_last_relevant_date c;
     c_expires := c_expires c;
     c_context_notes := c_context_notes c |}.

Definition setRelevantCount (v : Z) (c : Chunk) : Chunk :=
  {| c_id := c_id c;
     c_content := c_content c;
     c_summary := c_summary c;
     c_type := c_type c;
     c_epistemic := c_epistemic c;
     c_status := c_status c;
     c_surface_tags := c_surface_tags c;
     c_related := c_related c;
     c_created := c_created c;
     c_updated := c_updated c;
     c_accessed := c_accessed c;
     c_retrieved_count := c_retrieved_count c;
     c_relevant_count := v;
     c_last_relevant_date := c_last_relevant_date c;
     c_expires := c_expires c;
     c_context_notes := c_context_notes c |}.

Definition setLastRelevantDate (v : option string) (c : Chunk) : Chunk :=
  {| c_id := c_id c;
     c_content := c_content c;
     c_summary := c_summary c;
     c_type := c_type c;
     c_epistemic := c_epistemic c;
     c_status := c_status c;
     c_surface_tags := c_surface_tags c;
     c_related := c_related c;
     c_created := c_created c;
     c_updated := c_updated c;
     c_accessed := c_accessed c;
     c_retrieved_count := c_retrieved_count c;
     c_relevant_count := c_relevant_count c;
     c_last_relevant_date := v;
     c_expires := c_expires c;
     c_context_notes := c_context_notes c |}.

Definition setContextNotes (v : option string) (c : Chunk) : Chunk :=
  {| c_id := c_id c;
     c_content := c_content c;
     c_summary := c_summary c;
     c_type := c_type c;
     c_epistemic := c_epistemic c;
     c_status := c_status c;
     c_surface_tags := c_surface_tags c;
     c_related := c_related c;
     c_created := c_created c;
     c_updated := c_updated c;
     c_accessed := c_accessed c;
     c_retrieved_count := c_retrieved_count c;
     c_relevant_count := c_relevant_count c;
     c_last_relevant_date := c_last_relevant_date c;
     c_expires := c_expires c;
     c_context_notes := v |}.

(** [ChunkMeta = Omit<Chunk, 'content'>]. *)
Record ChunkMeta := {
  cm_id : string;
  cm_summary : string;
  cm_type : ChunkType;
  cm_epistemic : EpistemicStatus;
  cm_status : LifecycleStatus;
  cm_surface_tags : list string;
  cm_related : list ChunkRelation;
  cm_created : string;
  cm_updated : string;
  cm_accessed : string;
  cm_retrieved_count : Z;
  cm_relevant_count : Z;
  cm_last_relevant_date : option string;
  cm_expires : option string;
  cm_context_notes : option string;
}.

Definition stripContent (c : Chunk) : ChunkMeta :=
  {| cm_id := c_id c;
     cm_summary := c_summary c;
     cm_type := c_type c;
     cm_epistemic := c_epistemic c;
     cm_status := c_status c;
     cm_surface_tags := c_surface_tags c;
     cm_related := c_related c;
     cm_created := c_created c;
     cm_updated := c_updated c;
     cm_accessed := c_accessed c;
     cm_retrieved_count := c_retrieved_count c;
     cm_relevant_count := c_relevant_count c;
     cm_last_relevant_date := c_last_relevant_date c;
     cm_expires := c_expires c;
     cm_context_notes := c_context_notes c |}.

(** The object spread [{ ...a, ...b }] of two partial chunks. *)
Definition orKey {A} (b a : option A) : option A :=
  match b with Some v => Some v | None => a end.

Definition spreadPartial (a b : PartialChunk) : PartialChunk :=
  {| p_id := orKey (p_id b) (p_id a);
     p_content := orKey (p_content b) (p_content a);
     p_summary := orKey (p_summary b) (p_summary a);
     p_type := orKey (p_type b) (p_type a);
     p_epistemic := orKey (p_epistemic b) (p_epistemic a);
     p_status := orKey (p_status b) (p_status a);
     p_surface_tags := orKey (p_surface_tags b) (p_surface_tags a);
     p_related := orKey (p_related b) (p_related a);
     p_created := orKey (p_created b) (p_created a);
     p_updated := orKey (p_updated b) (p_updated a);
     p_accessed := orKey (p_accessed b) (p_accessed a);
     p_retrieved_count := orKey (p_retrieved_count b) (p_retrieved_count a);
     p_relevant_count := orKey (p_relevant_count b) (p_relevant_count a);
     p_last_relevant_date := orKey (p_last_relevant_date b) (p_last_relevant_date a);
     p_expires := orKey (p_expires b) (p_expires a);
     p_context_notes := orKey (p_context_notes b) (p_context_notes a) |}.

(** The cast [as Chunk] of an object literal. A key that is still absent
    reads as undefined in JavaScript; the typed embedding shows a
    placeholder there. [storeChunk] casts only after the required keys were
    checked and the defaults applied, which leaves no mandatory key absent. *)
Definition asChunk (p : PartialChunk) : Chunk :=
  {| c_id := default EmptyString (p_id p);
     c_content := default EmptyString (p_content p);
     c_summary := default EmptyString (p_summary p);
     c_type := default fact (p_type p);
     c_epistemic := default working (p_epistemic p);
     c_status := default active (p_status p);
     c_surface_tags := default [] (p_surface_tags p);
     c_related := default [] (p_related p);
     c_created := default EmptyString (p_created p);
     c_updated := default EmptyString (p_updated p);
     c_accessed := default EmptyString (p_accessed p);
     c_retrieved_count := default 0 (p_retrieved_count p);
     c_relevant_count := default 0 (p_relevant_count p);
     c_last_relevant_date := default None (p_last_relevant_date p);
     c_expires := default None (p_expires p);
     c_context_notes := default None (p_context_notes p) |}.

(** [field in metadata]. *)
Definition hasField (field : string) (m : PartialChunk) : bool :=
  if String.eqb field "id" then bool_decide (is_Some (p_id m))
  else if String.eqb field "content" then bool_decide (is_Some (p_content m))
  else if String.eqb field "summary" then bool_decide (is_Some (p_summary m))
  else if String.eqb field "type" then bool_decide (is_Some (p_type m))
  else if String.eqb field "epistemic" then bool_decide (is_Some (p_epistemic m))
  else if String.eqb field "status" then bool_decide (is_Some (p_status m))
  else if String.eqb field "surface_tags" then bool_decide (is_Some (p_surface_tags m))
  else if String.eqb field "related" then bool_decide (is_Some (p_related m))
  else if String.eqb field "created" then bool_decide (is_Some (p_created m))
  else if String.eqb field "updated" then bool_decide (is_Some (p_updated m))
  else if String.eqb field "accessed" then bool_decide (is_Some (p_accessed m))
  else if String.eqb field "retrieved_count" then bool_decide (is_Some (p_retrieved_count m))
  else if String.eqb field "relevant_count" then bool_decide (is_Some (p_relevant_count m))
  else if String.eqb field "last_relevant_date" then bool_decide (is_Some (p_last_relevant_date m))
  else if String.eqb field "expires" then bool_decide (is_Some (p_expires m))
  else if String.eqb field "context_notes" then bool_decide (is_Some (p_context_notes m))
  else false.

Definition REQUIRED_FIELDS : list string :=
  ["summary"; "type"; "epistemic"; "surface_tags"].

Definition setPartialContent (v : string) (m : PartialChunk) : PartialChunk :=
  spreadPartial m
    {| p_id := None; p_content := Some v; p_summary := None; p_type := None;
       p_epistemic := None; p_status := None; p_surface_tags := None;
       p_related := None; p_created := None; p_updated := None;
       p_accessed := None; p_retrieved_count := None;
       p_relevant_count := None; p_last_relevant_date := None;
       p_expires := None; p_context_notes := None |}.

(* ===================================================================== *)
(** * The state of one MemoryStore process                                 *)
(* ===================================================================== *)

Inductive AuditAction :=
  | STORE | UPDATE | QUERY | RETRIEVE | RELEVANT | OBSOLETE | INIT | RELOAD.

(** What an entry carries after the action and the chunk id: a raw string,
    or an object that [JSON.stringify] renders on the line. *)
Inductive AuditDetails :=
  | DText (s : string)
  | DStore (summary : string) (type : ChunkType)
           (epistemic : EpistemicStatus) (surface_tags : list string)
  | DChanges (changes : PartialChunk)
  | DQuery (query : string) (results : list string)
  | DIds (ids : list string)
  | DInit (chunksLoaded : nat).

Record AuditEntry := {
  e_timestamp : string;
  e_action : AuditAction;
  e_chunkId : option string;
  e_details : option AuditDetails;
}.

(** The name an action has on a line of the log. *)
Definition actionName (a : AuditAction) : string :=
  match a with
  | STORE => "STORE" | UPDATE => "UPDATE" | QUERY => "QUERY"
  | RETRIEVE => "RETRIEVE" | RELEVANT => "RELEVANT" | OBSOLETE => "OBSOLETE"
  | INIT => "INIT" | RELOAD => "RELOAD"
  end.

(** Two built-ins of the JavaScript runtime are parameters of the
    development: [JSON.stringify] on the objects the engine logs, and the
    time value of [new Date(s)], where [None] is NaN, an invalid date. *)
Class JsRuntime := {
  jsonStringify : AuditDetails -> string;
  dateValue : string -> option Z;
}.

(** What [getEntries] makes of a line. The cast [as AuditAction] checks
    nothing: the action is the second word of the line, if there is one. *)
Record ParsedEntry := {
  pe_timestamp : string;
  pe_action : option string;
  pe_chunkId : option string;
  pe_details : option string;
}.

Section Engine.
Context `{YamlCodec} `{Ann}.

(** - [files]: the directory [<dataDir>/chunks], file name to text;
    - [idToFilename]: the map kept by [ChunkStorage];
    - [auditFile]: the lines of [audit.log], oldest first;
      [auditWritable] tells whether [fs.appendFile] on it succeeds;
    - [clock], [clockReads]: the instants [new Date().toISOString()]
      yields, and how many were read;
    - [random], [randomReads]: likewise for [crypto.randomBytes(3)];
    - [semantic]: the [SemanticIndex] of the store;
    - [initialized]: the flag of [MemoryStore]. *)
Record World := {
  files : gmap string string;
  idToFilename : gmap string string;
  auditFile : list AuditEntry;
  auditWritable : bool;
  clock : nat -> string;
  clockReads : nat;
  random : nat -> bytes3;
  randomReads : nat;
  semantic : SemanticIndex.t;
  initialized : bool;
}.

Definition setFiles (f : gmap string string) (w : World) : World :=
  {| files := f; idToFilename := idToFilename w; auditFile := auditFile w;
     auditWritable := auditWritable w; clock := clock w;
     clockReads := clockReads w; random := random w;
     randomReads := randomReads w; semantic := semantic w;
     initialized := initialized w |}.

Definition setIdToFilename (m : gmap string string) (w : World) : World :=
  {| files := files w; idToFilename := m; auditFile := auditFile w;
     auditWritable := auditWritable w; clock := clock w;
     clockReads := clockReads w; random := random w;
     randomReads := randomReads w; semantic := semantic w;
     initialized := initialized w |}.

Definition setAuditFile (l : list AuditEntry) (w : World) : World :=
  {| files := files w; idToFilename := idToFilename w; auditFile := l;
     auditWritable := auditWritable w; clock := clock w;
     clockReads := clockReads w; random := random w;
     randomReads := randomReads w; semantic := semantic w;
     initialized := initialized w |}.

Definition setAuditWritable (b : bool) (w : World) : World :=
  {| files := files w; idToFilename := idToFilename w;
     auditFile := auditFile w; auditWritable := b; clock := clock w;
     clockReads := clockReads w; random := random w;
     randomReads := randomReads w; semantic := semantic w;
     initialized := initialized w |}.

Definition setClockReads (n : nat) (w : World) : World :=
  {| files := files w; idToFilename := idToFilename w;
     auditFile := auditFile w; auditWritable := auditWritable w;
     clock := clock w; clockReads := n; random := random w;
     randomReads := randomReads w; semantic := semantic w;
     initialized := initialized w |}.

Definition setRandomReads (n : nat) (w : World) : World :=
  {| files := files w; idToFilename := idToFilename w;
     auditFile := auditFile w; auditWritable := auditWritable w;
     clock := clock w; clockReads := clockReads w; random := random w;
     randomReads := n; semantic := semantic w;
     initialized := initialized w |}.

Definition setSemantic (x : SemanticIndex.t) (w : World) : World :=
  {| files := files w; idToFilename := idToFilename w;
     auditFile := auditFile w; auditWritable := auditWritable w;
     clock := clock w; clockReads := clockReads w; random := random w;
     randomReads := randomReads w; semantic := x;
     initialized := initialized w |}.

Definition setInitialized (b : bool) (w : World) : World :=
  {| files := files w; idToFilename := idToFilename w;
     auditFile := auditFile w; auditWritable := auditWritable w;
     clock := clock w; clockReads := clockReads w; random := random w;
     randomReads := randomReads w; semantic := semantic w;
     initialized := b |}.

(** [new Date().toISOString()]. *)
Definition nowISO : M World string :=
  fun w => (Ok (clock w (clockReads w)), setClockReads (S (clockReads w)) w).

(** [generateId()]: [crypto.randomBytes(3).toString('hex')]. *)
Definition generateId : M World string :=
  fun w => (Ok (hexOfBytes3 (random w (randomReads w))),
            setRandomReads (S (randomReads w)) w).

(** A method of [this.index] run from the orchestrator. *)
Definition onIndex {A} (c : M SemanticIndex.t A) : M World A :=
  fun w => let '(r, x) := c (semantic w) in (r, setSemantic x w).

End Engine.

Arguments onIndex : simpl never.

(* ===================================================================== *)
(** * memory.storage.ts: ChunkStorage                                      *)
(* ===================================================================== *)

Module ChunkStorage.
Section WithPlatform.
Context `{YamlCodec} `{Ann}.

(** [fs.readdir(chunksDir)]: the names in the directory, in some order. *)
Definition readdir (w : World) : list string := (map_to_list (files w)).*1.

(** One turn of the loop of [buildIndex]. *)
Definition indexFile (m : gmap string string) (file : string) : gmap string string :=
  if Js.endsWith ".md" file then
    let id := idOfFilename file in
    if Js.truthy id && (String.length id =? 6)%nat then <[id := file]> m else m
  else m.

Definition buildIndex : M World unit :=
  modify (fun w => setIdToFilename (foldl indexFile ∅ (readdir w)) w).

Definition initialize : M World unit := buildIndex.

Definition exists_ (id : string) (w : World) : bool :=
  bool_decide (is_Some (idToFilename w !! id)).

(** The [while] of [generateUniqueId], bounded by [fuel] turns. *)
Fixpoint generateUniqueId_while (fuel : nat) (id : string) (attempts : nat)
    : M World (string * nat) :=
  fun w =>
    if exists_ id w && (attempts <? 100)%nat then
      match fuel with
      | O => (Err LoopFuelExhausted, w)
      | S fuel' =>
          (let* id' := generateId in
           generateUniqueId_while fuel' id' (S attempts)) w
      end
    else (Ok (id, attempts), w).

Definition generateUniqueId : M World string :=
  let* id0 := generateId in
  let* r := generateUniqueId_while 100 id0 0 in
  let '(id, attempts) := r in
  if (100 <=? attempts)%nat then throw IdExhausted else ret id.

Definition getAllIds (w : World) : list string := (map_to_list (idToFilename w)).*1.

Definition read (id : string) : M World (option Chunk) :=
  gets (fun w =>
    match idToFilename w !! id with
    | None => None
    | Some filename =>
        if negb (Js.truthy filename) then None
        else match files w !! filename with
             | None => None
             | Some content =>
                 match parseChunkFile content filename with
                 | Ok chunk => Some chunk
                 | Err _ => None
                 end
             end
    end).

Fixpoint readMany (ids : list string) : M World (list Chunk) :=
  match ids with
  | [] => ret []
  | id :: rest =>
      let* chunk := read id in
      let* chunks := readMany rest in
      ret (match chunk with Some c => c :: chunks | None => chunks end)
  end.

Definition write (chunk : Chunk) : M World unit :=
  modify (fun w =>
    let filename := getFilename (c_id chunk) (c_summary chunk) in
    let content := serializeChunk chunk in
    let unlinked :=
      match idToFilename w !! c_id chunk with
      | Some oldFilename =>
          if Js.truthy oldFilename && negb (String.eqb oldFilename filename)
          then delete oldFilename (files w)
          else files w
      | None => files w
      end in
    setIdToFilename (<[c_id chunk := filename]> (idToFilename w))
      (setFiles (<[filename := content]> unlinked) w)).

Definition delete_ (id : string) : M World bool :=
  fun w =>
    match idToFilename w !! id with
    | None => (Ok false, w)
    | Some filename =>
        if negb (Js.truthy filename) then (Ok false, w)
        else match files w !! filename with
             | None => (Ok false, w)
             | Some _ =>
                 (Ok true,
                  setIdToFilename (delete id (idToFilename w))
                    (setFiles (delete filename (files w)) w))
             end
    end.

Definition reloadIndex : M World unit := buildIndex.

End WithPlatform.
End ChunkStorage.

Arguments ChunkStorage.write : simpl never.
Arguments ChunkStorage.generateUniqueId : simpl never.

(* ===================================================================== *)
(** * memory.audit.ts: AuditLog                                            *)
(* ===================================================================== *)

Module AuditLog.
Section WithPlatform.
Context `{Ann}.

Definition initialize : M World unit := ret tt.

(** [fs.appendFile(logPath, line)]. *)
Definition appendFile (entry : AuditEntry) : M World unit :=
  fun w =>
    if auditWritable w then (Ok tt, setAuditFile (auditFile w ++ [entry]) w)
    else (Err AuditAppendFailure, w).

Definition log (action : AuditAction) (chunkId : option string)
    (details : option AuditDetails) : M World unit :=
  let* timestamp := nowISO in
  appendFile
    {| e_timestamp := timestamp;
       e_action := action;
       e_chunkId := match chunkId with
                    | Some i => if Js.truthy i then Some i else None
                    | None => None
                    end;
       e_details := details |}.

Definition logStore (chunkId : string) (metadata : AuditDetails) : M World unit :=
  log STORE (Some chunkId) (Some metadata).

Definition logUpdate (chunkId : string) (changes : PartialChunk) : M World unit :=
  log UPDATE (Some chunkId) (Some (DChanges changes)).

Definition logQuery (searchText : string) (resultIds : list string) : M World unit :=
  log QUERY None (Some (DQuery searchText resultIds)).

Definition logRetrieve (chunkIds : list string) : M World unit :=
  log RETRIEVE None (Some (DIds chunkIds)).

Definition logRelevant (chunkIds : list string) : M World unit :=
  log RELEVANT None (Some (DIds chunkIds)).

Definition logObsolete (chunkId reason : string) : M World unit :=
  log OBSOLETE (Some chunkId) (Some (DText reason)).

Section Reading.
Context `{JsRuntime}.

(** The line [log] builds for an entry, without the final line feed. *)
Definition detailStr (details : AuditDetails) : string :=
  match details with
  | DText s => s
  | d => jsonStringify d
  end.

Definition lineOf (e : AuditEntry) : string :=
  e_timestamp e +:+ " " +:+ actionName (e_action e)
    +:+ match e_chunkId e with
        | Some chunkId => " " +:+ chunkId
        | None => EmptyString
        end
    +:+ match e_details e with
        | Some details => " " +:+ detailStr details
        | None => EmptyString
        end.

(** The text of [audit.log]: one line per appended entry. *)
Fixpoint contentOf (entries : list AuditEntry) : string :=
  match entries with
  | [] => EmptyString
  | e :: rest => lineOf e +:+ String "010" (contentOf rest)
  end.

(** [new Date(timestamp) >= sinceDate]: false when either date is invalid. *)
Definition notBefore (sinceDate : option Z) (timestamp : string) : bool :=
  match dateValue timestamp, sinceDate with
  | Some t, Some s => (s <=? t)%Z
  | _, _ => false
  end.

(** The filter of [readSince]. *)
Definition lineSince (sinceDate : option Z) (line : string) : bool :=
  if negb (Js.truthy (Js.trim line)) then false
  else notBefore sinceDate (hd EmptyString (Js.split " " line)).

Definition readSince (since : option string) : M World string :=
  let* content := gets (fun w => contentOf (auditFile w)) in
  match since with
  | None => ret content
  | Some since =>
      if negb (Js.truthy since) then ret content
      else
        let sinceDate := dateValue since in
        ret (Js.join "010"
               (List.filter (lineSince sinceDate) (Js.split "010" content)))
  end.

(** The callback [getEntries] maps over the lines. *)
Definition parseLine (line : string) : ParsedEntry :=
  let parts := Js.split " " line in
  let hasId :=
    match parts !! 2%nat with
    | Some part => Js.truthy part && isHexId part
    | None => false
    end in
  let details :=
    Js.join " " (Js.sliceFrom (if hasId then 3 else 2)%nat parts) in
  {| pe_timestamp := hd EmptyString parts;
     pe_action := parts !! 1%nat;
     pe_chunkId := if hasId then parts !! 2%nat else None;
     pe_details := if Js.truthy details then Some details else None |}.

Definition getEntries (since : option string) : M World (list ParsedEntry) :=
  let* content := readSince since in
  let lines :=
    List.filter (fun line => Js.truthy (Js.trim line)) (Js.split "010" content) in
  ret (map parseLine lines).

End Reading.

End WithPlatform.
End AuditLog.

Arguments AuditLog.log : simpl never.

(* ===================================================================== *)
(** * memory.index.ts: MemoryStore                                         *)
(* ===================================================================== *)

Definition LF : string := String "010" EmptyString.

(** [parts.join(sep)] for a separator of any length. *)
Fixpoint joinWith (sep : string) (parts : list string) : string :=
  match parts with
  | [] => EmptyString
  | [x] => x
  | x :: xs => x +:+ sep +:+ joinWith sep xs
  end.

Definition buildEmbeddingText (chunk : Chunk) : string :=
  joinWith (LF +:+ LF)
    [c_summary chunk; joinWith ", " (c_surface_tags chunk); c_content chunk].

(** [path.basename(filePath)]: what follows the last slash. *)
Definition basename (filePath : string) : string :=
  List.last (Js.split "/" filePath) EmptyString.

Module MemoryStore.
Section WithPlatform.
Context `{YamlCodec} `{Ann}.

(** [new MemoryStore({ dataDir })] in a fresh process. *)
Definition create (dir : gmap string string) (log : list AuditEntry)
    (writable : bool) (clk : nat -> string) (rnd : nat -> bytes3) : World :=
  {| files := dir; idToFilename := ∅; auditFile := log;
     auditWritable := writable; clock := clk; clockReads := 0%nat;
     random := rnd; randomReads := 0%nat;
     semantic := SemanticIndex.create (Some (100 * 100)%nat);
     initialized := false |}.

Definition rebuildIndex : M World unit :=
  let* _ := onIndex SemanticIndex.reset in
  let* ids := gets ChunkStorage.getAllIds in
  forEach ids (fun id =>
    let* chunk := ChunkStorage.read id in
    match chunk with
    | Some c => onIndex (SemanticIndex.addDocument id (buildEmbeddingText c))
    | None => ret tt
    end).

Definition initialize : M World unit :=
  let* already := gets initialized in
  if already then ret tt
  else
    let* _ := ChunkStorage.initialize in
    let* _ := AuditLog.initialize in
    let* _ := onIndex SemanticIndex.init in
    let* _ := rebuildIndex in
    let* n := gets (fun w => SemanticIndex.getDocumentCount (semantic w)) in
    let* _ := AuditLog.log INIT None (Some (DInit n)) in
    modify (setInitialized true).

Definition handleFileChange (filePath : string) : M World unit :=
  let* _ := ChunkStorage.reloadIndex in
  let filename := basename filePath in
  let id := idOfFilename filename in
  if negb (Js.truthy id) || negb (String.length id =? 6)%nat then ret tt
  else
    let* chunk := ChunkStorage.read id in
    match chunk with
    | Some c =>
        let* _ := onIndex (SemanticIndex.updateDocument id (buildEmbeddingText c)) in
        AuditLog.log RELOAD (Some id) None
    | None => ret tt
    end.

Definition handleFileDelete (filePath : string) : M World unit :=
  let filename := basename filePath in
  let id := idOfFilename filename in
  if negb (Js.truthy id) || negb (String.length id =? 6)%nat then ret tt
  else
    let* _ := ChunkStorage.reloadIndex in
    let* _ := onIndex (SemanticIndex.removeDocument id) in
    ret tt.

Definition getChunkDefaults : M World PartialChunk :=
  let* now := nowISO in
  ret {| p_id := None; p_content := None; p_summary := None; p_type := None;
         p_epistemic := None;
         p_status := Some active;
         p_surface_tags := None;
         p_related := Some [];
         p_created := Some now;
         p_updated := Some now;
         p_accessed := Some now;
         p_retrieved_count := Some 0;
         p_relevant_count := Some 0;
         p_last_relevant_date := Some None;
         p_expires := None; p_context_notes := None |}.

Definition storeChunk (content : string) (metadata : PartialChunk) : M World string :=
  let* _ := forEach REQUIRED_FIELDS (fun field =>
              if hasField field metadata then ret tt
              else throw (MissingRequiredField field)) in
  let* id := ChunkStorage.generateUniqueId in
  let* defaults := getChunkDefaults in
  let chunk := setContent content (setId id (asChunk (spreadPartial defaults metadata))) in
  let* _ := ChunkStorage.write chunk in
  let* _ := onIndex (SemanticIndex.addDocument id (buildEmbeddingText chunk)) in
  let* _ := AuditLog.logStore id
              (DStore (c_summary chunk) (c_type chunk) (c_epistemic chunk)
                      (c_surface_tags chunk)) in
  ret id.

(** [content.slice(0, 100) + (content.length > 100 ? '...' : '')]. *)
Definition excerpt (content : string) : string :=
  Js.sliceTo 100 content +:+
  (if (100 <? String.length content)%nat then "..." else EmptyString).

(** The object [updated] that [updateChunk] builds from [existing]. *)
Definition applyUpdate (id : string) (metadata : PartialChunk)
    (content : option string) (now : string) (existing : Chunk) : Chunk :=
  let merged := setUpdated now (setId id (spread existing metadata)) in
  match content with
  | Some c => setContent c merged
  | None => merged
  end.

Definition updateChunk (id : string) (metadata : PartialChunk)
    (content : option string) : M World unit :=
  let* existing := ChunkStorage.read id in
  match existing with
  | None => throw (ChunkNotFound id)
  | Some existing =>
      let* now := nowISO in
      let updated := applyUpdate id metadata content now existing in
      let* _ := ChunkStorage.write updated in
      let* _ := onIndex (SemanticIndex.updateDocument id (buildEmbeddingText updated)) in
      let changes := match content with
                     | Some c => setPartialContent (excerpt c) metadata
                     | None => metadata
                     end in
      AuditLog.logUpdate id changes
  end.

Definition getChunks (ids : list string) : M World (list Chunk) :=
  ChunkStorage.readMany ids.

(** The body of the write-back loop of [query]. *)
Definition touch (now : string) (chunk : Chunk) : Chunk :=
  setAccessed now (setRetrievedCount (c_retrieved_count chunk + 1) chunk).

Definition query (searchText : string) (limit : Z) : M World (list ChunkMeta) :=
  let* results := onIndex (SemanticIndex.query searchText limit) in
  let ids := map qr_id results in
  if (List.length ids =? 0)%nat then ret []
  else
    let* chunks := ChunkStorage.readMany ids in
    let* now := nowISO in
    let* _ := forEach chunks (fun chunk => ChunkStorage.write (touch now chunk)) in
    let* _ := AuditLog.logQuery searchText ids in
    let* _ := AuditLog.logRetrieve ids in
    ret (map (fun chunk => stripContent (touch now chunk)) chunks).

(** The changes [markRelevant] makes to a chunk before writing it back. *)
Definition applyRelevant (now : string) (chunk : Chunk) : Chunk :=
  setLastRelevantDate (Some now)
    (setRelevantCount (c_relevant_count chunk + 1) chunk).

Definition markRelevant (ids : list string) : M World unit :=
  let* now := nowISO in
  let* _ := forEach ids (fun id =>
              let* chunk := ChunkStorage.read id in
              match chunk with
              | Some c => ChunkStorage.write (applyRelevant now c)
              | None => ret tt
              end) in
  AuditLog.logRelevant ids.

(** The note [markObsolete] leaves, and the context notes that result. *)
Definition obsoleteNote (reason : string) : string :=
  "[Obsoleted: " +:+ reason +:+ "]".

Definition obsoleteNotes (reason : string) (old : option string) : string :=
  match old with
  | Some notes =>
      if Js.truthy notes then notes +:+ LF +:+ obsoleteNote reason
      else obsoleteNote reason
  | None => obsoleteNote reason
  end.

(** The changes [markObsolete] makes to a chunk before writing it back. *)
Definition applyObsolete (reason now : string) (chunk : Chunk) : Chunk :=
  setContextNotes (Some (obsoleteNotes reason (c_context_notes chunk)))
    (setUpdated now (setStatus archived chunk)).

Definition markObsolete (id reason : string) : M World unit :=
  let* chunk := ChunkStorage.read id in
  match chunk with
  | None => throw (ChunkNotFound id)
  | Some c =>
      let* now := nowISO in
      let* _ := ChunkStorage.write (applyObsolete reason now c) in
      AuditLog.logObsolete id reason
  end.

Definition getAuditLog `{JsRuntime} (since : option string) : M World string :=
  AuditLog.readSince since.

Definition shutdown : M World unit := modify (setInitialized false).

Definition getStats (w : World) : nat * nat :=
  (List.length (ChunkStorage.getAllIds w),
   SemanticIndex.getDocumentCount (semantic w)).

(** The mutating and reading entry points, as one type of requests. *)
Inductive Op :=
  | OpStoreChunk (content : string) (metadata : PartialChunk)
  | OpUpdateChunk (id : string) (metadata : PartialChunk) (content : option string)
  | OpGetChunks (ids : list string)
  | OpQuery (searchText : string) (limit : Z)
  | OpMarkRelevant (ids : list string)
  | OpMarkObsolete (id reason : string).

(** The outcome of a request, its value forgotten, and the state after. *)
Definition perform (op : Op) (w : World) : result unit * World :=
  match op with
  | OpStoreChunk content metadata =>
      (let* _ := storeChunk content metadata in ret tt) w
  | OpUpdateChunk id metadata content => updateChunk id metadata content w
  | OpGetChunks ids => (let* _ := getChunks ids in ret tt) w
  | OpQuery searchText limit => (let* _ := query searchText limit in ret tt) w
  | OpMarkRelevant ids => markRelevant ids w
  | OpMarkObsolete id reason => markObsolete id reason w
  end.

Definition performAll (ops : list Op) (w : World) : World :=
  foldl (fun w op => snd (perform op w)) w ops.

End WithPlatform.
End MemoryStore.

(* ===================================================================== *)
(** * Reference collaborators                                              *)
(* ===================================================================== *)

(** Executable stand-ins for the three external packages. They serve to
    run the engine on concrete inputs and to show that the contracts
    assumed of the packages can be met. *)

Module RefYaml.

(** One header field, as a value of one of four shapes. *)
Definition Token : Type :=
  (option string + option Z) + (option (list string) + option (list (string * string))).

Definition tStr (s : option string) : Token := inl (inl s).
Definition tNum (z : option Z) : Token := inl (inr z).
Definition tStrs (l : option (list string)) : Token := inr (inl l).
Definition tRels (l : option (list (string * string))) : Token := inr (inr l).

Definition typeCode (t : ChunkType) : Z :=
  match t with
  | framework => 0 | insight => 1 | fact => 2 | log => 3
  | emotional => 4 | goal => 5 | question => 6
  end.

Definition typeOfCode (z : Z) : option ChunkType :=
  match z with
  | 0 => Some framework | 1 => Some insight | 2 => Some fact | 3 => Some log
  | 4 => Some emotional | 5 => Some goal | 6 => Some question
  | _ => None
  end.

Definition epistemicCode (t : EpistemicStatus) : Z :=
  match t with
  | established => 0 | working => 1 | speculative => 2 | deprecated => 3
  end.

Definition epistemicOfCode (z : Z) : option EpistemicStatus :=
  match z with
  | 0 => Some established | 1 => Some working | 2 => Some speculative
  | 3 => Some deprecated
  | _ => None
  end.

Definition statusCode (t : LifecycleStatus) : Z :=
  match t with
  | active => 0 | dormant => 1 | review => 2 | archived => 3
  end.

Definition statusOfCode (z : Z) : option LifecycleStatus :=
  match z with
  | 0 => Some active | 1 => Some dormant | 2 => Some review | 3 => Some archived
  | _ => None
  end.

Definition pairOfRelation (r : ChunkRelation) : string * string :=
  (rel_id r, rel_reason r).

Definition relationOfPair (p : string * string) : ChunkRelation :=
  {| rel_id := fst p; rel_reason := snd p |}.

Definition tokens (h : Header) : list Token :=
  [ tStr (Some (h_id h)); tStr (Some (h_summary h));
    tNum (Some (typeCode (h_type h)));
    tNum (Some (epistemicCode (h_epistemic h)));
    tNum (Some (statusCode (h_status h)));
    tStrs (h_surface_tags h);
    tStr (Some (h_created h)); tStr (Some (h_updated h));
    tStr (Some (h_accessed h));
    tNum (h_retrieved_count h); tNum (h_relevant_count h);
    tStr (h_last_relevant_date h);
    tRels (fmap (M := option) (map pairOfRelation) (h_related h));
    tStr (h_expires h); tStr (h_context_notes h) ].

Definition ofTokens (ts : list Token) : option Header :=
  match ts with
  | [ inl (inl (Some i)); inl (inl (Some s)); inl (inr (Some t));
      inl (inr (Some e)); inl (inr (Some st)); inr (inl tags);
      inl (inl (Some cr)); inl (inl (Some up)); inl (inl (Some ac));
      inl (inr rc); inl (inr lc); inl (inl lrd); inr (inr rels);
      inl (inl ex); inl (inl cn) ] =>
      match typeOfCode t, epistemicOfCode e, statusOfCode st with
      | Some t', Some e', Some st' =>
          Some {| h_id := i; h_summary := s; h_type := t'; h_epistemic := e';
                  h_status := st'; h_surface_tags := tags; h_created := cr;
                  h_updated := up; h_accessed := ac; h_retrieved_count := rc;
                  h_relevant_count := lc; h_last_relevant_date := lrd;
                  h_related := fmap (M := option) (map relationOfPair) rels;
                  h_expires := ex; h_context_notes := cn |}
      | _, _, _ => None
      end
  | _ => None
  end.

(** A positive number written in binary digits, lowest first. *)
Fixpoint digits (p : positive) : string :=
  match p with
  | xH => EmptyString
  | xO q => String "0" (digits q)
  | xI q => String "1" (digits q)
  end.

Fixpoint ofDigits (s : string) : option positive :=
  match s with
  | EmptyString => Some xH
  | String a r =>
      if Ascii.eqb a "0" then xO <$> ofDigits r
      else if Ascii.eqb a "1" then xI <$> ofDigits r
      else None
  end.

Definition stringify (h : Header) : string :=
  digits (encode (tokens h)) +:+ String "010" EmptyString.

Definition parse (s : string) : option Header :=
  p ← ofDigits s; ts ← decode p; ofTokens ts.

#[export] Instance codec : YamlCodec :=
  {| stringifyYaml := stringify; parseYaml := parse |}.

End RefYaml.

Module RefAnn.

(** A point of the index: its vector and whether it is live. The vector of
    a text is the text; the distance of two texts is the difference of
    their lengths. *)
Record backend := {
  capacity : nat;
  points : gmap nat (string * bool);
}.

Definition distance (q v : string) : nat :=
  (String.length q - String.length v) + (String.length v - String.length q).

Definition new (n : nat) : backend := {| capacity := n; points := ∅ |}.

Definition add (b : backend) (v : string) (label : nat) : option backend :=
  match points b !! label with
  | Some _ =>
      Some {| capacity := capacity b; points := <[label := (v, true)]> (points b) |}
  | None =>
      if (capacity b <=? size (points b))%nat then None
      else Some {| capacity := capacity b;
                   points := <[label := (v, true)]> (points b) |}
  end.

Definition markDeleted (b : backend) (label : nat) : option backend :=
  match points b !! label with
  | Some (v, true) =>
      Some {| capacity := capacity b; points := <[label := (v, false)]> (points b) |}
  | _ => None
  end.

Definition closer (x y : nat * nat) : Prop := (snd x <= snd y)%nat.

#[global] Instance closer_dec : RelDecision closer.
Proof. intros x y. unfold closer. apply _. Defined.

Definition isLive (e : nat * (string * bool)) : bool := snd (snd e).

Definition scored (q : string) (b : backend) : list (nat * nat) :=
  map (fun e : nat * (string * bool) => (fst e, distance q (fst (snd e))))
      (List.filter isLive (map_to_list (points b))).

Definition search (b : backend) (q : string) (k : Z) : option (list nat * list nat) :=
  if (k <? 0)%Z then None
  else
    let top := take (Z.to_nat k) (merge_sort closer (scored q b)) in
    Some (map fst top, map snd top).

#[export] Instance ann : Ann :=
  {| Vec := string; Dist := nat; distLe := le; embed := fun text => Some text;
     Backend := backend; newIndex := new; addPoint := add;
     markDelete := markDeleted; searchKnn := search |}.

End RefAnn.

(* ===================================================================== *)
(** * Vocabulary of the properties                                         *)
(* ===================================================================== *)

(** The [i]-th identifier the random source yields from state [w] on. *)
Definition draw `{Ann} (w : World) (i : nat) : string :=
  hexOfBytes3 (random w (randomReads w + i)%nat).

(** The candidates the loop examines: the one it starts from, then draws. *)
Definition candidate `{Ann} (id : string) (w : World) (j : nat) : string :=
  match j with
  | O => id
  | S j' => draw w j'
  end.

(** The contract assumed of the YAML package: a header is written as lines,
    the last one terminated by a line feed, none of which is the frontmatter
    delimiter, and reading those lines back yields the header. *)
Class YamlLaws `{YamlCodec} : Prop := {
  yaml_roundtrip : forall h : Header, exists body : string,
    stringifyYaml h = body +:+ LF
    /\ (FRONTMATTER_DELIMITER ∉ Js.split "010" body)
    /\ parseYaml body = Some h;
}.

(** What reading back a written chunk yields: the header is rebuilt from the
    chunk's own header and the body is trimmed. *)
Definition normalize (c : Chunk) : Chunk :=
  chunkOfHeader (headerOf c) (Js.trim (c_content c)).

(** The chunks that the codec reproduces as they are: the body carries no
    white space at either end, every relation has a non-empty id and reason,
    and a nullable or optional string that is present is not empty. *)
Definition roundTrips (c : Chunk) : Prop :=
  Js.trim (c_content c) = c_content c
  /\ Forall (fun r => relationKept r = true) (c_related c)
  /\ c_last_relevant_date c <> Some EmptyString
  /\ c_expires c <> Some EmptyString
  /\ c_context_notes c <> Some EmptyString.

(** The contract assumed of the nearest-neighbour backend. A label is live
    when [markDelete] accepts it. Marking and adding leave the other live
    labels live, a label just added is live, and a search answers at most
    [k] distinct labels with as many distances, closest first. *)
Class AnnLaws `{Ann} : Prop := {
  markDelete_frame : forall b n b' m,
    markDelete b n = Some b' -> m <> n ->
    is_Some (markDelete b m) -> is_Some (markDelete b' m);
  addPoint_live : forall b v n b',
    addPoint b v n = Some b' -> is_Some (markDelete b' n);
  addPoint_frame : forall b v n b' m,
    addPoint b v n = Some b' -> m <> n ->
    is_Some (markDelete b m) -> is_Some (markDelete b' m);
  searchKnn_lengths : forall b v k ns ds,
    searchKnn b v k = Some (ns, ds) -> List.length ns = List.length ds;
  searchKnn_bound : forall b v k ns ds,
    searchKnn b v k = Some (ns, ds) -> (Z.of_nat (List.length ns) <= k)%Z;
  searchKnn_distinct : forall b v k ns ds,
    searchKnn b v k = Some (ns, ds) -> NoDup ns;
  searchKnn_sorted : forall b v k ns ds,
    searchKnn b v k = Some (ns, ds) -> StronglySorted distLe ds;
}.

(** The three properties of the facade that claim C10 names. *)
Definition mutuallyInverse `{Ann} (s : SemanticIndex.t) : Prop :=
  forall id n,
    SemanticIndex.idToIndex s !! id = Some n
    <-> SemanticIndex.indexToId s !! n = Some id.

Definition deletedUnmapped `{Ann} (s : SemanticIndex.t) : Prop :=
  forall n, n ∈ SemanticIndex.deletedIndices s ->
            SemanticIndex.indexToId s !! n = None.

Definition slotsBelowNext `{Ann} (s : SemanticIndex.t) : Prop :=
  (forall n id, SemanticIndex.indexToId s !! n = Some id ->
                (n < SemanticIndex.nextIndex s)%nat)
  /\ (forall n, n ∈ SemanticIndex.deletedIndices s ->
                (n < SemanticIndex.nextIndex s)%nat).

(** The invariant of the facade: the three properties, every slot in use
    or freed is within the capacity, and every slot in use is a live label
    of the backend. *)
Record facadeInv `{Ann} (s : SemanticIndex.t) : Prop := {
  inv_inverse : mutuallyInverse s;
  inv_deleted : deletedUnmapped s;
  inv_below : slotsBelowNext s;
  inv_mapped_capacity : forall n id,
    SemanticIndex.indexToId s !! n = Some id ->
    (n < SemanticIndex.maxElements s)%nat;
  inv_deleted_capacity : forall n,
    n ∈ SemanticIndex.deletedIndices s -> (n < SemanticIndex.maxElements s)%nat;
  inv_live : forall n id b,
    SemanticIndex.indexToId s !! n = Some id ->
    SemanticIndex.index s = Some b -> is_Some (markDelete b n);
}.

(** The calls that change the facade. *)
Inductive FacadeCall :=
  | CallReset
  | CallAdd (id text : string)
  | CallRemove (id : string)
  | CallUpdate (id text : string).

Definition facadeStep `{Ann} (s : SemanticIndex.t) (c : FacadeCall) : SemanticIndex.t :=
  match c with
  | CallReset => snd (SemanticIndex.reset s)
  | CallAdd id text => snd (SemanticIndex.addDocument id text s)
  | CallRemove id => snd (SemanticIndex.removeDocument id s)
  | CallUpdate id text => snd (SemanticIndex.updateDocument id text s)
  end.

(** The facade as [addDocument] sees it after its first step: without the
    document [id], if it was there. *)
Definition afterRemoval `{Ann} (id : string) (s : SemanticIndex.t) : SemanticIndex.t :=
  if SemanticIndex.hasDocument id s
  then snd (SemanticIndex.removeDocument id s)
  else s.

(** The slot [addDocument] takes in a given state of the facade. *)
Definition allocatedSlot `{Ann} (s : SemanticIndex.t) : nat :=
  match SemanticIndex.deletedIndices s with
  | n :: _ => n
  | [] => SemanticIndex.nextIndex s
  end.

(** The chunk the storage answers for an identifier. *)
Definition stored `{YamlCodec} `{Ann} (w : World) (id : string) : option Chunk :=
  match fst (ChunkStorage.read id w) with
  | Ok c => c
  | Err _ => None
  end.

(** The invariant of the storage: every key of the id-to-filename map has
    six characters and names a file that parses to a chunk with that id, a
    file name derived from the chunk's summary, and fields that the codec
    reproduces as they are. *)
Definition storeInv `{YamlCodec} `{Ann} (w : World) : Prop :=
  forall id fn, idToFilename w !! id = Some fn ->
    String.length id = 6%nat
    /\ exists c, stored w id = Some c /\ c_id c = id
                 /\ fn = getFilename id (c_summary c) /\ roundTrips c.

(** Two states with the same chunk directory and the same id map. *)
Definition sameStorage `{Ann} (w w' : World) : Prop :=
  files w' = files w /\ idToFilename w' = idToFilename w.

(** No chunk of [w] is lost in [w'] and no counter of it is smaller there. *)
Definition countersGrow `{YamlCodec} `{Ann} (w w' : World) : Prop :=
  forall id c, stored w id = Some c ->
    exists c', stored w' id = Some c'
      /\ (c_retrieved_count c <= c_retrieved_count c')%Z
      /\ (c_relevant_count c <= c_relevant_count c')%Z.

(** The requests that do not assign a counter: all but an [updateChunk]
    whose metadata carries [retrieved_count] or [relevant_count]. *)
Definition respectsCounters (op : MemoryStore.Op) : Prop :=
  match op with
  | MemoryStore.OpUpdateChunk _ metadata _ =>
      p_retrieved_count metadata = None /\ p_relevant_count metadata = None
  | _ => True
  end.

(** A computation that neither reads nor changes whether the audit file
    can be appended to. *)
Definition auditBlind `{Ann} {A} (c : M World A) : Prop :=
  forall b w,
    c (setAuditWritable b w) = (fst (c w), setAuditWritable b (snd (c w))).

(** Run from [w] once with a working and once with a failing audit append:
    whenever the first run returns a value satisfying [P], the second run
    fails with the append error, and it leaves the chunk directory, the id
    map and the semantic index exactly as the first run leaves them. *)
Definition surfacesWhen `{Ann} {A} (P : A -> Prop) (c : M World A) (w : World) : Prop :=
  forall a wA, c (setAuditWritable true w) = (Ok a, wA) -> P a ->
    fst (c (setAuditWritable false w)) = Err AuditAppendFailure
    /\ files (snd (c (setAuditWritable false w))) = files wA
    /\ idToFilename (snd (c (setAuditWritable false w))) = idToFilename wA
    /\ semantic (snd (c (setAuditWritable false w))) = semantic wA.

Definition auditFailureSurfaces `{Ann} {A} (c : M World A) (w : World) : Prop :=
  surfacesWhen (fun _ => True) c w.

(** What one turn of [buildIndex] may add. *)
Definition indexable (file : string) : Prop :=
  Js.endsWith ".md" file = true
  /\ String.length (idOfFilename file) = 6%nat.

Definition countersLe (c c' : Chunk) : Prop :=
  (c_retrieved_count c <= c_retrieved_count c')%Z
  /\ (c_relevant_count c <= c_relevant_count c')%Z.

(** The chunks of a start state [w0] in a later state [w]: each is still
    stored, and its later version stands in [rel] to it. *)
Definition keptSince `{YamlCodec} `{Ann} (rel : Chunk -> Chunk -> Prop)
    (w0 w : World) : Prop :=
  forall id c, stored w0 id = Some c ->
    exists c', stored w id = Some c' /\ rel c c'.

(** What every step of a request keeps: the storage is well formed and the
    chunks of the start state are kept. *)
Definition storeKept `{YamlCodec} `{Ann} (rel : Chunk -> Chunk -> Prop)
    (w0 w : World) : Prop :=
  storeInv w /\ keptSince rel w0 w.

(** A change [f] made to a chunk before it is written back respects [rel]:
    the chunk read back stands in [rel] to whatever the chunk it was made
    from stood in [rel] to. *)
Definition relKeptBy (rel : Chunk -> Chunk -> Prop) (f : Chunk -> Chunk) : Prop :=
  forall c0 c, rel c0 c -> rel c0 (normalize (f c)).

(** A request respects [rel] when the changes it makes to chunks do. *)
Definition opRespects (rel : Chunk -> Chunk -> Prop) (op : MemoryStore.Op) : Prop :=
  match op with
  | MemoryStore.OpStoreChunk _ _ => True
  | MemoryStore.OpUpdateChunk id metadata content =>
      forall now, relKeptBy rel (MemoryStore.applyUpdate id metadata content now)
  | MemoryStore.OpGetChunks _ => True
  | MemoryStore.OpQuery _ _ => forall now, relKeptBy rel (MemoryStore.touch now)
  | MemoryStore.OpMarkRelevant _ =>
      forall now, relKeptBy rel (MemoryStore.applyRelevant now)
  | MemoryStore.OpMarkObsolete _ reason =>
      forall now, relKeptBy rel (MemoryStore.applyObsolete reason now)
  end.

(* ===================================================================== *)
(** * Example data                                                         *)
(* ===================================================================== *)

(** Concrete chunks, stores and indexes over the reference collaborators,
    for the instances and the counterexamples of the properties. *)

Section ExampleData.
#[local] Existing Instance RefYaml.codec.
#[local] Existing Instance RefAnn.ann.


Definition exampleClock (n : nat) : string :=
  "2025-01-01T00:00:" +:+ String (ascii_of_nat (48 + n / 10))
     (String (ascii_of_nat (48 + n mod 10)) ".000Z").

Definition exampleRandom (n : nat) : bytes3 :=
  (Byte.xab, Byte.xcd, default Byte.x00 (Byte.of_nat n)).

(** A freshly initialised store over an empty data directory. *)
Definition freshStore : World :=
  snd (MemoryStore.initialize
         (MemoryStore.create ∅ [] true exampleClock exampleRandom)).

(** The same store after a file with a six-character, non-hex prefix was
    dropped into the chunk directory. *)
Definition storeWithForeignFile : World :=
  setFiles
    {[ "ZZZZZZ-notes.md" :=
         serializeChunk
           {| c_id := "ZZZZZZ"; c_content := "hand-written note";
              c_summary := "notes"; c_type := fact;
              c_epistemic := established; c_status := active;
              c_surface_tags := []; c_related := [];
              c_created := "2025-01-01T00:00:00.000Z";
              c_updated := "2025-01-01T00:00:00.000Z";
              c_accessed := "2025-01-01T00:00:00.000Z";
              c_retrieved_count := 0; c_relevant_count := 0;
              c_last_relevant_date := None; c_expires := None;
              c_context_notes := None |} ]}
    freshStore.

(** An index of capacity 100 whose embedder is loaded. *)
Definition loadedIndex : SemanticIndex.t :=
  snd (SemanticIndex.init (SemanticIndex.create (Some 100%nat))).

(** Three documents added to it, then the third and the first removed:
    slots 2 and 0 are free, in that order. *)
Definition churnedIndex : SemanticIndex.t :=
  foldl facadeStep (snd (SemanticIndex.reset loadedIndex))
    [ CallAdd "a1b2c3" "equity offers"; CallAdd "d4e5f6" "uncertainty";
      CallAdd "0789ab" "pasta carbonara";
      CallRemove "0789ab"; CallRemove "a1b2c3" ].

Definition greeting : PartialChunk :=
  {| p_id := None; p_content := None; p_summary := Some "greet";
     p_type := Some fact; p_epistemic := Some established; p_status := None;
     p_surface_tags := Some ["hello"]; p_related := None; p_created := None;
     p_updated := None; p_accessed := None; p_retrieved_count := None;
     p_relevant_count := None; p_last_relevant_date := None;
     p_expires := None; p_context_notes := None |}.

(** Scenario S4: one chunk stored, then queried once. *)
Definition storedAndQueried : list MemoryStore.Op :=
  [ MemoryStore.OpStoreChunk "hello world" greeting;
    MemoryStore.OpQuery "hello" 1 ].

Definition resetRetrieved : PartialChunk :=
  {| p_id := None; p_content := None; p_summary := None; p_type := None;
     p_epistemic := None; p_status := None; p_surface_tags := None;
     p_related := None; p_created := None; p_updated := None;
     p_accessed := None; p_retrieved_count := Some 0;
     p_relevant_count := None; p_last_relevant_date := None;
     p_expires := None; p_context_notes := None |}.

Definition storeAfterS4 : World :=
  MemoryStore.performAll storedAndQueried freshStore.




End ExampleData.

(* ===================================================================== *)
(** * Properties: strings                                                  *)
(* ===================================================================== *)

Lemma append_cons (x : ascii) (a b : string) :
  String x a +:+ b = String x (a +:+ b).
Proof. reflexivity. Qed.

Lemma append_assoc (a b c : string) : (a +:+ b) +:+ c = a +:+ (b +:+ c).
Proof.
  induction a as [|x a IH]; [reflexivity|].
  rewrite !append_cons, IH. reflexivity.
Qed.

Lemma split_nonempty sep s : Js.split sep s <> [].
Proof.
  destruct s as [|a r]; simpl; [discriminate|].
  destruct (Ascii.eqb a sep); [discriminate|].
  destruct (Js.split sep r); discriminate.
Qed.

Lemma split_app sep a b :
  Js.split sep (a +:+ String sep b) = Js.split sep a ++ Js.split sep b.
Proof.
  induction a as [|x r IH]; simpl.
  - rewrite Ascii.eqb_refl. reflexivity.
  - destruct (Ascii.eqb x sep); [rewrite IH; reflexivity|].
    rewrite IH. pose proof (split_nonempty sep r) as Hne.
    destruct (Js.split sep r) as [|y ys]; [congruence | reflexivity].
Qed.

Lemma join_split sep s : Js.join sep (Js.split sep s) = s.
Proof.
  induction s as [|a r IH]; [reflexivity|]. simpl.
  pose proof (split_nonempty sep r) as Hne.
  destruct (Ascii.eqb_spec a sep) as [-> | Hsep].
  - destruct (Js.split sep r) as [|y ys]; [congruence|].
    change (Js.join sep (EmptyString :: y :: ys))
      with (String sep (Js.join sep (y :: ys))).
    rewrite IH. reflexivity.
  - destruct (Js.split sep r) as [|y ys]; [congruence|].
    destruct ys as [|z zs]; simpl in *; rewrite <- IH; reflexivity.
Qed.

Lemma split_plain sep s :
  allChars (fun a => negb (Ascii.eqb a sep)) s = true -> Js.split sep s = [s].
Proof.
  induction s as [|a r IH]; simpl; [reflexivity|].
  intros [Ha Hr]%andb_prop. apply negb_true_iff in Ha. rewrite Ha, (IH Hr).
  reflexivity.
Qed.

Lemma indexOf_first x l1 l2 :
  x ∉ l1 -> Js.indexOf x 0 (l1 ++ x :: l2) = Some (List.length l1).
Proof.
  induction l1 as [|y l1 IH]; simpl; intros Hnot.
  - rewrite String.eqb_refl. reflexivity.
  - apply not_elem_of_cons in Hnot as [Hxy Hnot].
    destruct (String.eqb_spec y x) as [-> | _]; [congruence|].
    rewrite (IH Hnot). reflexivity.
Qed.

Lemma indexOf_after_head x y l1 l2 :
  x ∉ l1 -> Js.indexOf x 1 (y :: l1 ++ x :: l2) = Some (S (List.length l1)).
Proof. intros Hnot. simpl. rewrite (indexOf_first x l1 l2 Hnot). reflexivity. Qed.

Lemma slice_middle {A} (y : A) l1 x l2 :
  Js.slice 1 (S (List.length l1)) (y :: l1 ++ x :: l2) = l1.
Proof.
  unfold Js.slice. simpl. rewrite Nat.sub_0_r, drop_0.
  rewrite take_app_length. reflexivity.
Qed.

Lemma sliceFrom_after {A} (y : A) l1 x l2 :
  Js.sliceFrom (S (List.length l1) + 1) (y :: l1 ++ x :: l2) = l2.
Proof.
  unfold Js.sliceFrom. simpl.
  rewrite drop_app_add'; [reflexivity | reflexivity].
Qed.

(** [stripEnd] keeps the first character of a string that does not start
    with a stripped character. *)
Lemma stripEnd_head p a r :
  p a = false -> exists r', Js.stripEnd p (String a r) = String a r'.
Proof.
  intros Ha. simpl. destruct (Js.stripEnd p r); rewrite ?Ha; eauto.
Qed.

Lemma stripStart_fixed p s :
  match s with EmptyString => True | String a _ => p a = false end ->
  Js.stripStart p s = s.
Proof. destruct s as [|a r]; simpl; [reflexivity|]. intros ->. reflexivity. Qed.

Lemma stripStart_head p s :
  match Js.stripStart p s with
  | EmptyString => True
  | String a _ => p a = false
  end.
Proof.
  induction s as [|a r IH]; simpl; [exact I|].
  destruct (p a) eqn:Ha; [exact IH | simpl; exact Ha].
Qed.

Lemma stripEnd_cons p a r :
  Js.stripEnd p (String a r)
  = match Js.stripEnd p r with
    | EmptyString => if p a then EmptyString else String a EmptyString
    | r' => String a r'
    end.
Proof. reflexivity. Qed.

Lemma stripEnd_idem p s : Js.stripEnd p (Js.stripEnd p s) = Js.stripEnd p s.
Proof.
  induction s as [|a r IH]; [reflexivity|].
  rewrite (stripEnd_cons p a r).
  destruct (Js.stripEnd p r) as [|b t] eqn:Hr.
  - destruct (p a) eqn:Ha; [reflexivity|].
    rewrite stripEnd_cons. simpl. rewrite Ha. reflexivity.
  - rewrite stripEnd_cons, IH. reflexivity.
Qed.

Lemma trim_idem s : Js.trim (Js.trim s) = Js.trim s.
Proof.
  unfold Js.trim.
  pose proof (stripStart_head Js.isSpace s) as Hhead.
  destruct (Js.stripStart Js.isSpace s) as [|a r] eqn:Hs; [reflexivity|].
  destruct (stripEnd_head Js.isSpace a r Hhead) as [r' Hr'].
  rewrite stripStart_fixed; [apply stripEnd_idem|].
  rewrite Hr'. exact Hhead.
Qed.

Lemma trim_leading_LF s : Js.trim (String "010" s) = Js.trim s.
Proof. reflexivity. Qed.

Lemma truthy_true s : Js.truthy s = true <-> s <> EmptyString.
Proof. destruct s; simpl; split; congruence. Qed.

(* ===================================================================== *)
(** * Properties: the chunk codec                                          *)
(* ===================================================================== *)

Lemma filter_all_kept {A} (f : A -> bool) (l : list A) :
  Forall (fun x => f x = true) l -> List.filter f l = l.
Proof.
  induction 1 as [|x l Hx _ IH]; simpl; [reflexivity|].
  rewrite Hx, IH. reflexivity.
Qed.

Lemma filter_kept {A} (f : A -> bool) (l : list A) :
  Forall (fun x => f x = true) (List.filter f l).
Proof.
  induction l as [|x l IH]; simpl; [constructor|].
  destruct (f x) eqn:Hx; [constructor; assumption | exact IH].
Qed.

Lemma orElseStr_fixed (x : option string) :
  x <> Some EmptyString -> orElseStr x = x.
Proof. destruct x as [[|a r]|]; simpl; congruence. Qed.

Lemma orElseStr_not_empty (x : option string) : orElseStr x <> Some EmptyString.
Proof. destruct x as [[|a r]|]; simpl; congruence. Qed.

Lemma join_after_blank (l : list string) :
  l <> [] -> Js.join "010" (EmptyString :: l) = String "010" (Js.join "010" l).
Proof. destruct l; [congruence | reflexivity]. Qed.

Lemma normalize_fixed (c : Chunk) : roundTrips c -> normalize c = c.
Proof.
  intros (Hbody & Hrel & Hdate & Hexp & Hnotes).
  destruct c as [i body s ty ep st tags rel cr up ac rc lc lrd ex cn].
  unfold normalize, chunkOfHeader, headerOf. simpl in *.
  rewrite Hbody, (orElseStr_fixed _ Hdate), (orElseStr_fixed _ Hexp),
    (orElseStr_fixed _ Hnotes).
  f_equal. destruct rel as [|r rel]; [reflexivity|].
  simpl default. apply filter_all_kept, Hrel.
Qed.

Lemma normalize_roundTrips (c : Chunk) : roundTrips (normalize c).
Proof.
  unfold roundTrips, normalize, chunkOfHeader, headerOf. simpl.
  split_and!.
  - apply trim_idem.
  - apply filter_kept.
  - apply orElseStr_not_empty.
  - apply orElseStr_not_empty.
  - apply orElseStr_not_empty.
Qed.

Lemma normalize_idem (c : Chunk) : normalize (normalize c) = normalize c.
Proof. apply normalize_fixed, normalize_roundTrips. Qed.

Section CodecProps.
Context `{YamlLaws}.

(** Parsing what [serializeChunk] wrote never fails, whatever the file
    name, and yields the chunk in normal form. *)
Lemma parse_serialize (c : Chunk) (filename : string) :
  parseChunkFile (serializeChunk c) filename = Ok (normalize c).
Proof.
  unfold serializeChunk, parseChunkFile.
  destruct (yaml_roundtrip (headerOf c)) as (body & Hs & Hnot & Hp).
  rewrite Hs.
  assert (Hlines :
    Js.split "010"
      (FRONTMATTER_DELIMITER +:+ String "010" (body +:+ LF) +:+
       FRONTMATTER_DELIMITER +:+ String "010" (String "010" (c_content c)))
    = FRONTMATTER_DELIMITER
        :: Js.split "010" body
        ++ FRONTMATTER_DELIMITER :: EmptyString :: Js.split "010" (c_content c)).
  { change (FRONTMATTER_DELIMITER +:+ String "010" (body +:+ LF) +:+
            FRONTMATTER_DELIMITER +:+ String "010" (String "010" (c_content c)))
      with (FRONTMATTER_DELIMITER +:+
            String "010" ((body +:+ LF) +:+
              (FRONTMATTER_DELIMITER +:+
                 String "010" (EmptyString +:+ String "010" (c_content c))))).
    unfold LF. rewrite append_assoc.
    change (String "010" EmptyString +:+
            FRONTMATTER_DELIMITER +:+
            String "010" (EmptyString +:+ String "010" (c_content c)))
      with (String "010" (FRONTMATTER_DELIMITER +:+
              String "010" (EmptyString +:+ String "010" (c_content c)))).
    rewrite !split_app. reflexivity. }
  rewrite Hlines. simpl hd. rewrite String.eqb_refl. simpl negb. cbv iota.
  rewrite (indexOf_after_head _ _ _ _ Hnot).
  rewrite slice_middle, join_split, Hp, sliceFrom_after.
  rewrite join_after_blank by apply split_nonempty.
  rewrite join_split, trim_leading_LF. reflexivity.
Qed.

End CodecProps.

(* ===================================================================== *)
(** * Properties: identifiers                                              *)
(* ===================================================================== *)

Lemma hexOfByte_shape (b : Byte.byte) :
  exists x y, hexOfByte b = String x (String y EmptyString)
              /\ isHexChar x = true /\ isHexChar y = true.
Proof. destruct b; do 2 eexists; repeat split; reflexivity. Qed.

Lemma hexOfBytes3_isHexId (b : bytes3) : isHexId (hexOfBytes3 b) = true.
Proof.
  destruct b as [[b0 b1] b2]. unfold hexOfBytes3.
  destruct (hexOfByte_shape b0) as (x0 & y0 & -> & Hx0 & Hy0).
  destruct (hexOfByte_shape b1) as (x1 & y1 & -> & Hx1 & Hy1).
  destruct (hexOfByte_shape b2) as (x2 & y2 & -> & Hx2 & Hy2).
  unfold isHexId. simpl. rewrite Hx0, Hy0, Hx1, Hy1, Hx2, Hy2. reflexivity.
Qed.

Section UniqueId.
Context `{Ann}.

Lemma setRandomReads_same (w : World) : setRandomReads (randomReads w) w = w.
Proof. destruct w; reflexivity. Qed.

Lemma exists_setRandomReads id n (w : World) :
  ChunkStorage.exists_ id (setRandomReads n w) = ChunkStorage.exists_ id w.
Proof. reflexivity. Qed.

Lemma generateUniqueId_while_spec (fuel : nat) :
  forall (id : string) (attempts : nat) (w : World),
    (100 <= attempts + fuel)%nat -> (attempts <= 100)%nat ->
    exists n,
      ChunkStorage.generateUniqueId_while fuel id attempts w
        = (Ok (candidate id w n, (attempts + n)%nat),
           setRandomReads (randomReads w + n) w)
      /\ (attempts + n <= 100)%nat
      /\ (forall j, (j < n)%nat -> ChunkStorage.exists_ (candidate id w j) w = true)
      /\ (ChunkStorage.exists_ (candidate id w n) w = false
          \/ (attempts + n)%nat = 100%nat).
Proof.
  induction fuel as [|fuel IH]; intros id attempts w Hfuel Hle.
  - exists 0%nat. simpl.
    replace (attempts <? 100)%nat with false
      by (symmetry; apply Nat.ltb_ge; lia).
    rewrite andb_false_r, !Nat.add_0_r, setRandomReads_same.
    split_and!; [reflexivity | lia | intros; lia | right; lia].
  - simpl. destruct (ChunkStorage.exists_ id w) eqn:Hex; simpl.
    + destruct (attempts <? 100)%nat eqn:Hlt.
      * apply Nat.ltb_lt in Hlt.
        unfold bind, generateId.
        destruct (IH (hexOfBytes3 (random w (randomReads w)))
                     (S attempts) (setRandomReads (S (randomReads w)) w))
          as (n & Hrun & Hb & Hall & Hstop); [lia | lia |].
        exists (S n). rewrite Hrun. simpl.
        assert (Hcand : forall j,
                  candidate (hexOfBytes3 (random w (randomReads w)))
                    (setRandomReads (S (randomReads w)) w) j
                  = candidate id w (S j)).
        { intros [|j]; simpl; unfold draw; simpl.
          - f_equal. f_equal. lia.
          - f_equal. f_equal. lia. }
        split_and!.
        -- rewrite Hcand.
           replace (attempts + S n)%nat with (S (attempts + n)) by lia.
           replace (randomReads w + S n)%nat with (S (randomReads w + n)) by lia.
           destruct w; reflexivity.
        -- lia.
        -- intros [|j] Hj; [exact Hex|].
           assert (Hj' := Hall j ltac:(lia)). rewrite Hcand in Hj'. exact Hj'.
        -- rewrite Hcand in Hstop.
           destruct Hstop as [Hs | Hs]; [left; exact Hs | right; lia].
      * apply Nat.ltb_ge in Hlt. exists 0%nat.
        rewrite !Nat.add_0_r, setRandomReads_same.
        split_and!; [reflexivity | lia | intros; lia | right; lia].
    + exists 0%nat. rewrite !Nat.add_0_r, setRandomReads_same.
      split_and!; [reflexivity | lia | intros; lia | left; exact Hex].
Qed.

(** What [generateUniqueId] answers, by the number [n] of draws that collided
    before the loop stopped. *)
Lemma generateUniqueId_cases (w : World) :
  exists n,
    (n <= 100)%nat
    /\ (forall j, (j < n)%nat -> ChunkStorage.exists_ (draw w j) w = true)
    /\ ((n < 100)%nat -> ChunkStorage.exists_ (draw w n) w = false
                         /\ fst (ChunkStorage.generateUniqueId w) = Ok (draw w n))
    /\ (n = 100%nat -> fst (ChunkStorage.generateUniqueId w) = Err IdExhausted).
Proof.
  unfold ChunkStorage.generateUniqueId, bind, generateId.
  destruct (generateUniqueId_while_spec 100
              (hexOfBytes3 (random w (randomReads w))) 0
              (setRandomReads (S (randomReads w)) w))
    as (n & Hrun & Hb & Hall & Hstop); [lia | lia |].
  assert (Hcand : forall j,
            candidate (hexOfBytes3 (random w (randomReads w)))
              (setRandomReads (S (randomReads w)) w) j = draw w j).
  { intros [|j]; simpl; unfold draw; simpl; do 2 f_equal; lia. }
  exists n. rewrite Hrun. cbv beta iota zeta. rewrite Nat.add_0_l in *.
  split; [lia|]. split.
  { intros j Hj. assert (Hj' := Hall j Hj). rewrite Hcand in Hj'. exact Hj'. }
  split.
  - intros Hn. destruct Hstop as [Hs | Hs]; [|lia].
    split; [rewrite Hcand in Hs; exact Hs|].
    replace (100 <=? n)%nat with false by (symmetry; apply Nat.leb_gt; lia).
    unfold ret. cbn [fst]. rewrite Hcand. reflexivity.
  - intros ->. reflexivity.
Qed.

End UniqueId.


(* ===================================================================== *)
(** * Properties: the reference YAML codec meets its contract              *)
(* ===================================================================== *)

Lemma ofDigits_digits (p : positive) : RefYaml.ofDigits (RefYaml.digits p) = Some p.
Proof. induction p as [p IH | p IH |]; simpl; rewrite ?IH; reflexivity. Qed.

Lemma digits_one_line (p : positive) :
  Js.split "010" (RefYaml.digits p) = [RefYaml.digits p].
Proof.
  apply split_plain. induction p as [p IH | p IH |]; simpl; auto.
Qed.

Lemma digits_not_delimiter (p : positive) :
  RefYaml.digits p <> FRONTMATTER_DELIMITER.
Proof. destruct p; discriminate. Qed.

Lemma relationOfPair_pairOfRelation (l : list ChunkRelation) :
  map RefYaml.relationOfPair (map RefYaml.pairOfRelation l) = l.
Proof.
  induction l as [|[i r] l IH]; simpl; [reflexivity|]. rewrite IH. reflexivity.
Qed.

Lemma ofTokens_tokens (h : Header) : RefYaml.ofTokens (RefYaml.tokens h) = Some h.
Proof.
  destruct h as [i s ty ep st tags cr up ac rc lc lrd rel ex cn].
  unfold RefYaml.tokens, RefYaml.ofTokens, RefYaml.tStr, RefYaml.tNum,
    RefYaml.tStrs, RefYaml.tRels. simpl.
  assert (Hty : RefYaml.typeOfCode (RefYaml.typeCode ty) = Some ty)
    by (destruct ty; reflexivity).
  assert (Hep : RefYaml.epistemicOfCode (RefYaml.epistemicCode ep) = Some ep)
    by (destruct ep; reflexivity).
  assert (Hst : RefYaml.statusOfCode (RefYaml.statusCode st) = Some st)
    by (destruct st; reflexivity).
  rewrite Hty, Hep, Hst.
  destruct rel as [rel|]; simpl; [rewrite relationOfPair_pairOfRelation|];
    reflexivity.
Qed.

#[export] Instance RefYaml_laws : @YamlLaws RefYaml.codec.
Proof.
  constructor. intros h. exists (RefYaml.digits (encode (RefYaml.tokens h))).
  split_and!.
  - reflexivity.
  - rewrite digits_one_line. intros Hin.
    apply list_elem_of_singleton in Hin. symmetry in Hin.
    exact (digits_not_delimiter _ Hin).
  - simpl. unfold RefYaml.parse. rewrite ofDigits_digits. simpl.
    rewrite decode_encode. simpl. apply ofTokens_tokens.
Qed.

(* ===================================================================== *)
(** * Claim C3: the round trip of the codec                                *)
(* ===================================================================== *)


Section CodecExamples.
#[local] Existing Instance RefYaml.codec.



End CodecExamples.

(* ===================================================================== *)
(** * Claim C4: which files enter the id-to-filename map                   *)
(* ===================================================================== *)

Section IndexFiles.

Lemma indexFile_lookup m file id f :
  ChunkStorage.indexFile m file !! id = Some f ->
  m !! id = Some f \/ (f = file /\ id = idOfFilename file /\ indexable file).
Proof.
  unfold ChunkStorage.indexFile, indexable.
  destruct (Js.endsWith ".md" file) eqn:Hmd; [|auto].
  destruct (Js.truthy (idOfFilename file)) eqn:Ht; simpl; [|auto].
  destruct (Nat.eqb_spec (String.length (idOfFilename file)) 6) as [Hlen | _];
    [|auto].
  rewrite lookup_insert. case_decide as Hid; [|auto].
  intros [= <-]. right. auto.
Qed.

Lemma foldl_indexFile_sound l : forall m id f,
  foldl ChunkStorage.indexFile m l !! id = Some f ->
  m !! id = Some f \/ (f ∈ l /\ id = idOfFilename f /\ indexable f).
Proof.
  induction l as [|file l IH]; simpl; intros m id f Hl; [auto|].
  apply IH in Hl as [Hl | (Hin & Hid & Hok)].
  - apply indexFile_lookup in Hl as [Hl | (-> & Hid & Hok)]; [auto|].
    right. split_and!; [left | exact Hid | exact Hok].
  - right. split_and!; [right; exact Hin | exact Hid | exact Hok].
Qed.

Lemma indexFile_keeps m file id :
  is_Some (m !! id) -> is_Some (ChunkStorage.indexFile m file !! id).
Proof.
  intros Hm. unfold ChunkStorage.indexFile.
  destruct (Js.endsWith ".md" file); [|exact Hm].
  destruct (_ && _); [|exact Hm].
  rewrite lookup_insert. case_decide; [eauto | exact Hm].
Qed.

Lemma foldl_indexFile_keeps l : forall m id,
  is_Some (m !! id) -> is_Some (foldl ChunkStorage.indexFile m l !! id).
Proof.
  induction l as [|file l IH]; simpl; intros m id Hm; [exact Hm|].
  apply IH, indexFile_keeps, Hm.
Qed.

Lemma foldl_indexFile_complete l : forall m file,
  file ∈ l -> indexable file ->
  is_Some (foldl ChunkStorage.indexFile m l !! idOfFilename file).
Proof.
  induction l as [|x l IH]; intros m file Hin [Hmd Hlen].
  - apply elem_of_nil in Hin. contradiction.
  - apply elem_of_cons in Hin as [<- | Hin]; simpl.
    + apply foldl_indexFile_keeps. unfold ChunkStorage.indexFile.
      rewrite Hmd, Hlen. simpl.
      destruct (idOfFilename file) eqn:Hid; [discriminate|]. simpl.
      rewrite lookup_insert_eq. eauto.
    + apply IH; [exact Hin | split; assumption].
Qed.

End IndexFiles.

Lemma elem_of_readdir `{Ann} (w : World) (file : string) :
  file ∈ ChunkStorage.readdir w <-> is_Some (files w !! file).
Proof.
  unfold ChunkStorage.readdir. rewrite list_elem_of_fmap. split.
  - intros ([f t] & -> & Hin). apply elem_of_map_to_list in Hin. simpl. eauto.
  - intros [t Ht]. exists (file, t). split; [reflexivity|].
    apply elem_of_map_to_list. exact Ht.
Qed.

(** C4 (as amended). [buildIndex] enters a file under the characters before
    its first dash exactly when the name ends in [.md] and that prefix has
    six characters, whatever the characters are: every entry of the map
    stems from such a file of the directory, and every such file has its
    prefix in the map. A watcher event for a path whose file name has a
    prefix of another length leaves the semantic index as it is. *)
Theorem index_admits_six_character_prefixes `{YamlCodec} `{Ann} (w : World) :
  (forall id file,
      idToFilename (snd (ChunkStorage.buildIndex w)) !! id = Some file ->
      is_Some (files w !! file) /\ id = idOfFilename file
      /\ Js.endsWith ".md" file = true /\ String.length id = 6%nat)
  /\ (forall file,
      is_Some (files w !! file) -> Js.endsWith ".md" file = true ->
      String.length (idOfFilename file) = 6%nat ->
      is_Some (idToFilename (snd (ChunkStorage.buildIndex w)) !! idOfFilename file))
  /\ (forall filePath,
      String.length (idOfFilename (basename filePath)) <> 6%nat ->
      fst (MemoryStore.handleFileChange filePath w) = Ok tt
      /\ semantic (snd (MemoryStore.handleFileChange filePath w)) = semantic w
      /\ MemoryStore.handleFileDelete filePath w = (Ok tt, w)).
Proof.
  split_and!.
  - intros id file Hl. simpl in Hl.
    apply foldl_indexFile_sound in Hl as [Hl | (Hin & -> & Hmd & Hlen)].
    + rewrite lookup_empty in Hl. discriminate.
    + apply elem_of_readdir in Hin. auto.
  - intros file Hin Hmd Hlen. simpl.
    apply foldl_indexFile_complete; [apply elem_of_readdir, Hin | split; auto].
  - intros filePath Hlen.
    unfold MemoryStore.handleFileChange, MemoryStore.handleFileDelete, bind.
    simpl.
    destruct (Nat.eqb_spec (String.length (idOfFilename (basename filePath))) 6)
      as [Heq | _]; [contradiction|].
    rewrite orb_true_r. simpl. auto.
Qed.

Section IndexExamples.
#[local] Existing Instance RefYaml.codec.
#[local] Existing Instance RefAnn.ann.

(** C4, as stated, fails: a prefix of six characters that are not hex digits
    is entered into the map and reconciled into the semantic index. *)
Lemma index_counterexample :
  isHexId "ZZZZZZ" = false
  /\ idToFilename (snd (ChunkStorage.buildIndex storeWithForeignFile)) !! "ZZZZZZ"
     = Some "ZZZZZZ-notes.md"
  /\ SemanticIndex.hasDocument "ZZZZZZ"
       (semantic (snd (MemoryStore.handleFileChange
                         "/data/chunks/ZZZZZZ-notes.md" storeWithForeignFile)))
     = true.
Proof. vm_compute. auto. Qed.

End IndexExamples.

(* ===================================================================== *)
(** * Properties: the facade of the semantic index                         *)
(* ===================================================================== *)

Lemma elem_of_JsSet_add (x n : nat) (s : JsSet.t) :
  x ∈ JsSet.add n s <-> x = n \/ x ∈ s.
Proof.
  unfold JsSet.add, JsSet.has.
  destruct (List.existsb (Nat.eqb n) s) eqn:Hex.
  - apply existsb_exists in Hex as (y & Hy & Heq).
    apply Nat.eqb_eq in Heq as <-. apply list_elem_of_In in Hy.
    split; [auto | intros [-> | ?]; assumption].
  - rewrite elem_of_app, list_elem_of_singleton. tauto.
Qed.

Lemma elem_of_JsSet_delete (x n : nat) (s : JsSet.t) :
  x ∈ JsSet.delete n s <-> x <> n /\ x ∈ s.
Proof.
  unfold JsSet.delete. rewrite !list_elem_of_In, filter_In.
  rewrite negb_true_iff, Nat.eqb_neq. tauto.
Qed.

Section Facade.
Context `{AnnLaws}.
Import SemanticIndex.

Lemma reset_inv (s : t) : facadeInv (snd (reset s)).
Proof.
  constructor; unfold mutuallyInverse, deletedUnmapped, slotsBelowNext; simpl.
  - intros id n. rewrite !lookup_empty. split; discriminate.
  - intros n Hn. apply lookup_empty.
  - split; [intros n id Hn; rewrite lookup_empty in Hn; discriminate|].
    intros n Hn. apply elem_of_nil in Hn. contradiction.
  - intros n id Hn. rewrite lookup_empty in Hn. discriminate.
  - intros n Hn. apply elem_of_nil in Hn. contradiction.
  - intros n id b Hn. rewrite lookup_empty in Hn. discriminate.
Qed.

(** What [removeDocument] does to an initialised facade that satisfies the
    invariant. *)
Lemma removeDocument_run (id : string) (s : t) :
  facadeInv s ->
  match index s, idToIndex s !! id with
  | Some b, Some n =>
      exists b', markDelete b n = Some b'
        /\ removeDocument id s
           = (Ok true,
              setDeleted (JsSet.add n (deletedIndices s))
                (setMaps (delete id (idToIndex s)) (delete n (indexToId s))
                   (setIndex (Some b') s)))
  | _, _ => removeDocument id s = (Ok false, s)
  end.
Proof.
  intros Hinv. unfold removeDocument.
  destruct (index s) as [b|] eqn:Hb; [|reflexivity].
  destruct (idToIndex s !! id) as [n|] eqn:Hn; [|reflexivity].
  destruct (inv_live s Hinv n id b) as [b' Hb']; [|exact Hb|].
  - apply (inv_inverse s Hinv). exact Hn.
  - exists b'. rewrite Hb'. split; reflexivity.
Qed.

Lemma removeDocument_inv (id : string) (s : t) :
  facadeInv s -> facadeInv (snd (removeDocument id s)).
Proof.
  intros Hinv. pose proof (removeDocument_run id s Hinv) as Hrun.
  destruct (index s) as [b|] eqn:Hb; [|rewrite Hrun; exact Hinv].
  destruct (idToIndex s !! id) as [n|] eqn:Hn; [|rewrite Hrun; exact Hinv].
  destruct Hrun as (b' & Hb' & ->). simpl.
  destruct Hinv as [Hi Hd Hbelow Hcm Hcd Hl].
  unfold mutuallyInverse, deletedUnmapped, slotsBelowNext in *.
  destruct Hbelow as [Hbm Hbd].
  assert (Hnid : indexToId s !! n = Some id) by (apply Hi; exact Hn).
  constructor; unfold mutuallyInverse, deletedUnmapped, slotsBelowNext; simpl.
  - intros id' n'. rewrite !lookup_delete. repeat case_decide; subst.
    + split; discriminate.
    + split; [discriminate|]. intros Hx. apply Hi in Hx. congruence.
    + split; [|discriminate]. intros Hx. apply Hi in Hx. congruence.
    + apply Hi.
  - intros n' [-> | Hin]%elem_of_JsSet_add.
    + apply lookup_delete_eq.
    + rewrite lookup_delete. case_decide; [reflexivity | apply Hd, Hin].
  - split.
    + intros n' id' Hx. rewrite lookup_delete in Hx.
      case_decide; [discriminate | eapply Hbm, Hx].
    + intros n' [-> | Hin]%elem_of_JsSet_add; [eapply Hbm, Hnid | apply Hbd, Hin].
  - intros n' id' Hx. rewrite lookup_delete in Hx.
    case_decide; [discriminate | eapply Hcm, Hx].
  - intros n' [-> | Hin]%elem_of_JsSet_add; [eapply Hcm, Hnid | apply Hcd, Hin].
  - intros n' id' b0 Hx [= <-]. rewrite lookup_delete in Hx.
    case_decide as Hne; [discriminate|].
    eapply markDelete_frame; [exact Hb' | congruence |].
    eapply Hl; [exact Hx | exact Hb].
Qed.

Lemma removeDocument_total (id : string) (s : t) :
  exists r, removeDocument id s = (Ok r, snd (removeDocument id s)).
Proof.
  unfold removeDocument.
  destruct (index s); [|eauto].
  destruct (idToIndex s !! id); [|eauto].
  destruct (markDelete _ _); eauto.
Qed.

Lemma allocate_run (s : t) :
  allocate s = (Ok (allocatedSlot s), snd (allocate s)).
Proof.
  unfold allocate, allocatedSlot, JsSet.first.
  destruct (deletedIndices s); reflexivity.
Qed.

Lemma allocate_frame (s : t) :
  idToIndex (snd (allocate s)) = idToIndex s
  /\ indexToId (snd (allocate s)) = indexToId s
  /\ maxElements (snd (allocate s)) = maxElements s
  /\ index (snd (allocate s)) = index s
  /\ embedderLoaded (snd (allocate s)) = embedderLoaded s.
Proof.
  unfold allocate, JsSet.first. destruct (deletedIndices s); simpl; auto.
Qed.

Lemma allocate_deleted (s : t) :
  deletedIndices (snd (allocate s))
  = JsSet.delete (allocatedSlot s) (deletedIndices s)
  /\ nextIndex (snd (allocate s))
    = match deletedIndices s with
      | [] => S (nextIndex s)
      | _ => nextIndex s
      end.
Proof.
  unfold allocate, allocatedSlot, JsSet.first.
  destruct (deletedIndices s) eqn:Hd; simpl; rewrite ?Hd; auto.
Qed.

(** [addDocument], step by step. *)
Lemma addDocument_unfold (id text : string) (s : t) :
  addDocument id text s
  = match index s with
    | None => (Err IndexNotInitialized, s)
    | Some _ =>
        let s2 := snd (allocate (afterRemoval id s)) in
        let n := allocatedSlot (afterRemoval id s) in
        if (maxElements s2 <=? n)%nat then (Err CapacityExceeded, s2)
        else if negb (embedderLoaded s2) then (Err EmbedderUnavailable, s2)
        else match embed text with
             | None => (Err EmbedderFailure, s2)
             | Some v =>
                 match index s2 with
                 | None => (Err IndexNotInitialized, s2)
                 | Some b =>
                     match addPoint b v n with
                     | None => (Err BackendFailure, s2)
                     | Some b' =>
                         (Ok tt,
                          setMaps (<[id := n]> (idToIndex s2))
                                  (<[n := id]> (indexToId s2))
                                  (setIndex (Some b') s2))
                     end
                 end
             end
    end.
Proof.
  unfold addDocument, getEmbedding, bind, gets, when, ret, throw, afterRemoval,
    hasDocument.
  destruct (index s) as [b0|]; [|reflexivity].
  destruct (bool_decide (is_Some (idToIndex s !! id))).
  - destruct (removeDocument_total id s) as [r ->]. simpl.
    rewrite allocate_run. simpl.
    destruct (_ <=? _)%nat; [reflexivity|].
    destruct (embedderLoaded _); simpl; [|reflexivity].
    destruct (embed text); reflexivity.
  - simpl. rewrite allocate_run. simpl.
    destruct (_ <=? _)%nat; [reflexivity|].
    destruct (embedderLoaded _); simpl; [|reflexivity].
    destruct (embed text); reflexivity.
Qed.

Lemma afterRemoval_inv (id : string) (s : t) :
  facadeInv s -> facadeInv (afterRemoval id s).
Proof.
  intros Hinv. unfold afterRemoval.
  destruct (hasDocument id s); [apply removeDocument_inv, Hinv | exact Hinv].
Qed.

Lemma afterRemoval_frame (id : string) (s : t) :
  maxElements (afterRemoval id s) = maxElements s
  /\ embedderLoaded (afterRemoval id s) = embedderLoaded s
  /\ nextIndex (afterRemoval id s) = nextIndex s
  /\ (is_Some (index s) -> is_Some (index (afterRemoval id s))).
Proof.
  unfold afterRemoval. destruct (hasDocument id s); [|auto].
  unfold removeDocument.
  destruct (index s) eqn:Hb; [|simpl; rewrite Hb; auto].
  destruct (idToIndex s !! id); [|simpl; rewrite Hb; auto].
  destruct (markDelete _ _); simpl; rewrite ?Hb; split_and!; eauto.
Qed.

(** After the first step of [addDocument] the document is not mapped. *)
Lemma afterRemoval_absent (id : string) (s : t) :
  facadeInv s -> is_Some (index s) ->
  idToIndex (afterRemoval id s) !! id = None.
Proof.
  intros Hinv [b Hb]. unfold afterRemoval, hasDocument.
  case_bool_decide as Hp.
  - pose proof (removeDocument_run id s Hinv) as Hrun. rewrite Hb in Hrun.
    destruct Hp as [n Hn]. rewrite Hn in Hrun.
    destruct Hrun as (b' & _ & ->). simpl. apply lookup_delete_eq.
  - apply eq_None_not_Some. exact Hp.
Qed.

Lemma allocatedSlot_free (s : t) :
  deletedIndices s <> [] -> allocatedSlot s ∈ deletedIndices s.
Proof.
  unfold allocatedSlot. destruct (deletedIndices s); [congruence | left].
Qed.

(** Removing a document that is present leaves a free slot. *)
Lemma afterRemoval_frees (id : string) (s : t) :
  facadeInv s -> is_Some (index s) -> hasDocument id s = true ->
  deletedIndices (afterRemoval id s) <> [].
Proof.
  intros Hinv [b Hb] Hp. unfold afterRemoval. rewrite Hp.
  unfold hasDocument in Hp. apply bool_decide_eq_true in Hp as [n Hn].
  pose proof (removeDocument_run id s Hinv) as Hrun.
  rewrite Hb, Hn in Hrun. destruct Hrun as (b' & _ & ->). simpl.
  intros Hnil.
  assert (Hin : n ∈ JsSet.add n (deletedIndices s))
    by (apply elem_of_JsSet_add; auto).
  rewrite Hnil in Hin. apply elem_of_nil in Hin. exact Hin.
Qed.

Lemma allocate_inv (s : t) :
  facadeInv s ->
  facadeInv (snd (allocate s))
  /\ indexToId (snd (allocate s)) !! allocatedSlot s = None
  /\ (allocatedSlot s ∉ deletedIndices (snd (allocate s)))
  /\ (allocatedSlot s < nextIndex (snd (allocate s)))%nat.
Proof.
  intros [Hi Hd Hbelow Hcm Hcd Hl].
  unfold mutuallyInverse, deletedUnmapped, slotsBelowNext in *.
  destruct Hbelow as [Hbm Hbd].
  unfold allocate, allocatedSlot, JsSet.first.
  destruct (deletedIndices s) as [|n rest] eqn:Hdel; simpl.
  - split_and!.
    + constructor; unfold mutuallyInverse, deletedUnmapped, slotsBelowNext;
        simpl; rewrite ?Hdel; auto.
      split; [|intros n Hn; apply elem_of_nil in Hn; contradiction].
      intros n i Hn. apply Hbm in Hn. lia.
    + destruct (indexToId s !! nextIndex s) as [i|] eqn:Hn; [|reflexivity].
      apply Hbm in Hn. lia.
    + rewrite Hdel. apply not_elem_of_nil.
    + lia.
  - assert (Hin : n ∈ n :: rest) by left.
    split_and!.
    + constructor; unfold mutuallyInverse, deletedUnmapped, slotsBelowNext;
        simpl; auto.
      * intros m [_ Hm]%elem_of_JsSet_delete. apply Hd, Hm.
      * split; [exact Hbm|].
        intros m [_ Hm]%elem_of_JsSet_delete. apply Hbd, Hm.
      * intros m [_ Hm]%elem_of_JsSet_delete. apply Hcd, Hm.
    + apply Hd, Hin.
    + intros [Hne _]%elem_of_JsSet_delete. congruence.
    + apply Hbd, Hin.
Qed.

(** Entering a document at a reserved slot keeps the invariant. *)
Lemma enter_inv (id : string) (n : nat) (v : Vec) (b b' : Backend) (s : t) :
  facadeInv s ->
  idToIndex s !! id = None -> indexToId s !! n = None ->
  n ∉ deletedIndices s ->
  (n < nextIndex s)%nat -> (n < maxElements s)%nat ->
  index s = Some b -> addPoint b v n = Some b' ->
  facadeInv (setMaps (<[id := n]> (idToIndex s)) (<[n := id]> (indexToId s))
               (setIndex (Some b') s)).
Proof.
  intros [Hi Hd Hbelow Hcm Hcd Hl] Hid Hn Hnd Hnext Hcap Hb Hadd.
  unfold mutuallyInverse, deletedUnmapped, slotsBelowNext in *.
  destruct Hbelow as [Hbm Hbd].
  constructor; unfold mutuallyInverse, deletedUnmapped, slotsBelowNext; simpl.
  - intros id' n'. rewrite !lookup_insert. repeat case_decide; subst.
    + split; congruence.
    + split; [congruence|]. intros Hx. apply Hi in Hx. congruence.
    + split; [|congruence]. intros Hx. apply Hi in Hx. congruence.
    + apply Hi.
  - intros m Hm. rewrite lookup_insert.
    case_decide; [subst; contradiction | apply Hd, Hm].
  - split; [|exact Hbd].
    intros m i Hx. rewrite lookup_insert in Hx.
    case_decide; [subst; exact Hnext | eapply Hbm, Hx].
  - intros m i Hx. rewrite lookup_insert in Hx.
    case_decide; [subst; exact Hcap | eapply Hcm, Hx].
  - exact Hcd.
  - intros m i b0 Hx [= <-]. rewrite lookup_insert in Hx.
    case_decide as Hm.
    + subst. eapply addPoint_live, Hadd.
    + eapply addPoint_frame; [exact Hadd | congruence |].
      eapply Hl; [exact Hx | exact Hb].
Qed.

Lemma addDocument_inv (id text : string) (s : t) :
  facadeInv s -> facadeInv (snd (addDocument id text s)).
Proof.
  intros Hinv. rewrite addDocument_unfold.
  destruct (index s) as [b0|] eqn:Hb0; [|exact Hinv].
  pose proof (afterRemoval_inv id s Hinv) as Hinv1.
  pose proof (afterRemoval_absent id s Hinv ltac:(eauto)) as Habs.
  destruct (allocate_inv _ Hinv1) as (Hinv2 & Hfree & Hnd & Hnext).
  destruct (allocate_frame (afterRemoval id s)) as (Ei & En & Em & Ex & El).
  cbv zeta.
  destruct (Nat.leb_spec (maxElements (snd (allocate (afterRemoval id s))))
              (allocatedSlot (afterRemoval id s))) as [_ | Hcap];
    [exact Hinv2|].
  destruct (embedderLoaded _); simpl; [|exact Hinv2].
  destruct (embed text) as [v|]; [|exact Hinv2].
  destruct (index (snd (allocate (afterRemoval id s)))) as [b|] eqn:Hb;
    [|exact Hinv2].
  destruct (addPoint b v _) as [b'|] eqn:Hadd; [|exact Hinv2].
  simpl. eapply enter_inv; eauto. rewrite Ei. exact Habs.
Qed.

Lemma updateDocument_inv (id text : string) (s : t) :
  facadeInv s -> facadeInv (snd (updateDocument id text s)).
Proof.
  intros Hinv. unfold updateDocument, bind.
  destruct (removeDocument_total id s) as [r Hr]. rewrite Hr.
  apply addDocument_inv, removeDocument_inv, Hinv.
Qed.

Lemma facadeStep_inv (s : t) (c : FacadeCall) :
  facadeInv s -> facadeInv (facadeStep s c).
Proof.
  intros Hinv. destruct c; simpl.
  - apply reset_inv.
  - apply addDocument_inv, Hinv.
  - apply removeDocument_inv, Hinv.
  - apply updateDocument_inv, Hinv.
Qed.

End Facade.

(* ===================================================================== *)
(** * Properties: the reference backend meets its contract                 *)
(* ===================================================================== *)

Lemma filter_fst_NoDup {A B} (f : A * B -> bool) (l : list (A * B)) :
  NoDup (map fst l) -> NoDup (map fst (List.filter f l)).
Proof.
  induction l as [|x l IH]; simpl; [auto|].
  intros [Hx Hl]%NoDup_cons. destruct (f x); simpl; [|auto].
  apply NoDup_cons. split; [|auto].
  intros Hin. apply Hx.
  apply list_elem_of_fmap in Hin as (y & -> & Hy).
  apply list_elem_of_fmap. exists y. split; [reflexivity|].
  apply list_elem_of_In, filter_In in Hy as [Hy _]. apply list_elem_of_In, Hy.
Qed.

Lemma scored_labels_NoDup (q : string) (b : RefAnn.backend) :
  NoDup (map fst (RefAnn.scored q b)).
Proof.
  unfold RefAnn.scored. rewrite map_map. simpl.
  apply (filter_fst_NoDup RefAnn.isLive), NoDup_fst_map_to_list.
Qed.

#[export] Instance closer_trans : Transitive RefAnn.closer.
Proof. intros x y z. unfold RefAnn.closer. lia. Qed.

#[export] Instance closer_total : Total RefAnn.closer.
Proof. intros x y. unfold RefAnn.closer. lia. Qed.

Lemma closer_sorted_distances (l : list (nat * nat)) :
  StronglySorted RefAnn.closer l -> StronglySorted le (map snd l).
Proof.
  induction 1 as [|x l _ IH Hall]; simpl; constructor; [exact IH|].
  apply Forall_fmap. exact Hall.
Qed.

#[export] Instance RefAnn_laws : @AnnLaws RefAnn.ann.
Proof.
  constructor; simpl.
  - intros b n b' m Hdel Hne [b'' Hm]. unfold RefAnn.markDeleted in *.
    destruct (RefAnn.points b !! n) as [[v []]|]; try discriminate.
    injection Hdel as <-. simpl. rewrite lookup_insert_ne by congruence.
    destruct (RefAnn.points b !! m) as [[v' []]|]; try discriminate. eauto.
  - intros b v n b' Hadd. unfold RefAnn.add, RefAnn.markDeleted in *.
    destruct (RefAnn.points b !! n); [|destruct (_ <=? _)%nat; [discriminate|]];
      injection Hadd as <-; simpl; rewrite lookup_insert_eq; eauto.
  - intros b v n b' m Hadd Hne [b'' Hm]. unfold RefAnn.add, RefAnn.markDeleted in *.
    assert (Hpts : RefAnn.points b' !! m = RefAnn.points b !! m).
    { destruct (RefAnn.points b !! n); [|destruct (_ <=? _)%nat; [discriminate|]];
        injection Hadd as <-; simpl; rewrite lookup_insert_ne by congruence;
        reflexivity. }
    rewrite Hpts. destruct (RefAnn.points b !! m) as [[v' []]|]; try discriminate.
    eauto.
  - intros b v k ns ds. unfold RefAnn.search.
    destruct (k <? 0)%Z; [discriminate|]. intros [= <- <-].
    rewrite !length_map. reflexivity.
  - intros b v k ns ds. unfold RefAnn.search.
    destruct (Z.ltb_spec k 0); [discriminate|]. intros [= <- <-].
    rewrite length_map, length_take. lia.
  - intros b v k ns ds. unfold RefAnn.search.
    destruct (k <? 0)%Z; [discriminate|]. intros [= <- <-].
    change (map fst) with (fmap (M := list) (@fst nat nat)).
    rewrite fmap_take. eapply sublist_NoDup; [|apply sublist_take].
    rewrite merge_sort_Permutation. apply scored_labels_NoDup.
  - intros b v k ns ds. unfold RefAnn.search.
    destruct (k <? 0)%Z; [discriminate|]. intros [= <- <-].
    apply closer_sorted_distances.
    pose proof (StronglySorted_merge_sort RefAnn.closer (RefAnn.scored v b)) as Hs.
    rewrite <- (take_drop (Z.to_nat k)) in Hs.
    eapply StronglySorted_app_1_l, Hs.
Qed.

(* ===================================================================== *)
(** * Claims C10 and C5: the slots of the facade                           *)
(* ===================================================================== *)

Lemma facadeInv_calls `{AnnLaws} (calls : list FacadeCall) :
  forall s, facadeInv s -> facadeInv (foldl facadeStep s calls).
Proof.
  induction calls as [|c calls IH]; simpl; intros s Hinv; [exact Hinv|].
  apply IH, facadeStep_inv, Hinv.
Qed.

(** C10. Under the contract of the backend: after [reset], and after any
    sequence of [addDocument], [removeDocument], [updateDocument] and
    [reset] calls that follows it, whether a call returned or threw,
    [idToIndex] and [indexToId] are inverse to each other, no slot of
    [deletedIndices] is mapped in [indexToId], and every mapped or deleted
    slot is below [nextIndex]. *)
Theorem facade_maps_stay_consistent `{AnnLaws}
    (s0 : SemanticIndex.t) (calls : list FacadeCall) :
  mutuallyInverse (foldl facadeStep (snd (SemanticIndex.reset s0)) calls)
  /\ deletedUnmapped (foldl facadeStep (snd (SemanticIndex.reset s0)) calls)
  /\ slotsBelowNext (foldl facadeStep (snd (SemanticIndex.reset s0)) calls).
Proof.
  destruct (facadeInv_calls calls _ (reset_inv s0)) as [Hi Hd Hb _ _ _].
  auto.
Qed.

Section FacadeClaims.
Context `{AnnLaws}.
Import SemanticIndex.

(** C5 (as amended). In a state of the facade that satisfies its invariant
    and has a backend: [addDocument id text] first removes [id] if it is
    present; the slot it takes is the free slot that was freed first (the
    head of [deletedIndices] in insertion order) when there is a free slot,
    and otherwise [nextIndex], which is then incremented; it fails with
    [CapacityExceeded] exactly when that slot is at least [maxElements], and
    then both maps are as before the call; when it succeeds the document is
    mapped to that slot; and it succeeds whenever the slot is within the
    capacity and the embedder and the backend accept the text. *)
Theorem addDocument_allocation (id text : string) (s : t) :
  facadeInv s -> is_Some (index s) ->
  idToIndex (afterRemoval id s) !! id = None
  /\ (fst (addDocument id text s) = Err CapacityExceeded
      <-> (maxElements s <= allocatedSlot (afterRemoval id s))%nat)
  /\ (fst (addDocument id text s) = Err CapacityExceeded ->
      idToIndex (snd (addDocument id text s)) = idToIndex s
      /\ indexToId (snd (addDocument id text s)) = indexToId s)
  /\ (fst (addDocument id text s) = Ok tt ->
      idToIndex (snd (addDocument id text s))
        = <[id := allocatedSlot (afterRemoval id s)]> (idToIndex (afterRemoval id s))
      /\ indexToId (snd (addDocument id text s))
        = <[allocatedSlot (afterRemoval id s) := id]> (indexToId (afterRemoval id s))
      /\ deletedIndices (snd (addDocument id text s))
        = JsSet.delete (allocatedSlot (afterRemoval id s))
            (deletedIndices (afterRemoval id s))
      /\ nextIndex (snd (addDocument id text s))
        = match deletedIndices (afterRemoval id s) with
          | [] => S (nextIndex s)
          | _ => nextIndex s
          end)
  /\ (forall v b,
      (allocatedSlot (afterRemoval id s) < maxElements s)%nat ->
      embedderLoaded s = true -> embed text = Some v ->
      index (afterRemoval id s) = Some b ->
      is_Some (addPoint b v (allocatedSlot (afterRemoval id s))) ->
      fst (addDocument id text s) = Ok tt).
Proof.
  intros Hinv Hix.
  pose proof (afterRemoval_absent id s Hinv Hix) as Habs.
  pose proof (afterRemoval_inv id s Hinv) as Hinv1.
  destruct (afterRemoval_frame id s) as (Fm & Fe & Fn & Fi).
  destruct (allocate_frame (afterRemoval id s)) as (Ei & En & Em & Ex & El).
  rewrite addDocument_unfold. destruct Hix as [b0 Hb0]. rewrite Hb0. cbv zeta.
  rewrite Em, Fm, El, Fe, Ex, Ei, En.
  split; [exact Habs|].
  destruct (Nat.leb_spec (maxElements s) (allocatedSlot (afterRemoval id s)))
    as [Hfull | Hroom].
  - (* the slot is beyond the capacity *)
    split_and!; simpl; try (intros; discriminate || lia).
    + tauto.
    + intros _.
      destruct (hasDocument id s) eqn:Hp;
        [|unfold afterRemoval; rewrite Hp;
          destruct (allocate_frame s) as (? & ? & _); auto].
      exfalso.
      pose proof (afterRemoval_frees id s Hinv (ex_intro _ b0 Hb0) Hp) as Hne.
      pose proof (inv_deleted_capacity _ Hinv1 _ (allocatedSlot_free _ Hne)) as Hm.
      rewrite Fm in Hm. lia.
  - (* the slot is within the capacity *)
    split; [split; [|lia]|].
    { destruct (embedderLoaded s); simpl; [|discriminate].
      destruct (embed text); [|discriminate].
      destruct (index (afterRemoval id s)); [|discriminate].
      destruct (addPoint _ _ _); discriminate. }
    split.
    { destruct (embedderLoaded s); simpl; [|discriminate].
      destruct (embed text); [|discriminate].
      destruct (index (afterRemoval id s)); [|discriminate].
      destruct (addPoint _ _ _); discriminate. }
    split.
    { destruct (embedderLoaded s); simpl; [|discriminate].
      destruct (embed text); [|discriminate].
      destruct (index (afterRemoval id s)); [|discriminate].
      destruct (addPoint _ _ _); [|discriminate].
      intros _. simpl.
      destruct (allocate_deleted (afterRemoval id s)) as [Hdel Hnext].
      rewrite Fn in Hnext. split_and!; auto. }
    intros v b _ -> -> -> [b' ->]. reflexivity.
Qed.

End FacadeClaims.

Section FacadeExamples.
#[local] Existing Instance RefAnn.ann.
Import SemanticIndex.

Lemma churnedIndex_inv : facadeInv churnedIndex.
Proof. apply facadeInv_calls, reset_inv. Qed.

Lemma facade_maps_stay_consistent_witness :
  mutuallyInverse churnedIndex /\ deletedUnmapped churnedIndex
  /\ slotsBelowNext churnedIndex.
Proof.
  exact (@facade_maps_stay_consistent RefAnn.ann RefAnn_laws loadedIndex
           [ CallAdd "a1b2c3" "equity offers"; CallAdd "d4e5f6" "uncertainty";
             CallAdd "0789ab" "pasta carbonara";
             CallRemove "0789ab"; CallRemove "a1b2c3" ]).
Defined.

Lemma addDocument_allocation_witness :
  facadeInv churnedIndex /\ is_Some (index churnedIndex)
  /\ idToIndex (snd (addDocument "c0ffee" "salary" churnedIndex)) !! "c0ffee"
     = Some (allocatedSlot (afterRemoval "c0ffee" churnedIndex)).
Proof.
  assert (Hix : is_Some (index churnedIndex)) by (vm_compute; eauto).
  split; [exact churnedIndex_inv|]. split; [exact Hix|].
  destruct (@addDocument_allocation RefAnn.ann RefAnn_laws "c0ffee" "salary"
              churnedIndex churnedIndex_inv Hix)
    as (_ & _ & _ & Hok & _).
  destruct (Hok ltac:(vm_compute; reflexivity)) as (-> & _).
  apply lookup_insert_eq.
Defined.

(** C5, as stated, fails: slots 2 and 0 are free, and the new document gets
    slot 2, the one freed first, not the smallest. *)
Lemma addDocument_allocation_counterexample :
  deletedIndices churnedIndex = [2%nat; 0%nat]
  /\ idToIndex (snd (addDocument "c0ffee" "salary" churnedIndex)) !! "c0ffee"
     = Some 2%nat.
Proof. vm_compute. auto. Qed.

End FacadeExamples.

(* ===================================================================== *)
(** * Claim C6: the results of a semantic query                            *)
(* ===================================================================== *)

Section QueryResults.
Context `{AnnLaws}.
Import SemanticIndex.

Lemma collect_length n2i ns (ds : list Dist) :
  (List.length (collect n2i ns ds) <= List.length ns)%nat.
Proof.
  revert ds. induction ns as [|n ns IH]; intros [|d ds]; simpl; try lia.
  specialize (IH ds).
  destruct (n2i !! n) as [i|]; [destruct (Js.truthy i); simpl|]; lia.
Qed.

(** Every hit that is kept stems from a slot that the backend answered and
    that [indexToId] maps to the identifier of the hit. *)
Lemma collect_from_slot n2i ns (ds : list Dist) r :
  r ∈ collect n2i ns ds ->
  exists n, n ∈ ns /\ n2i !! n = Some (qr_id r) /\ qr_distance r ∈ ds.
Proof.
  revert ds. induction ns as [|n ns IH]; intros [|d ds]; simpl;
    try (intros Hr; apply elem_of_nil in Hr; contradiction).
  assert (Hrest : r ∈ collect n2i ns ds ->
            exists m, m ∈ n :: ns /\ n2i !! m = Some (qr_id r)
                      /\ qr_distance r ∈ d :: ds).
  { intros Hr. destruct (IH ds Hr) as (m & Hm & Hid & Hd).
    exists m. split_and!; [right; exact Hm | exact Hid | right; exact Hd]. }
  destruct (n2i !! n) as [i|] eqn:Hn; [|exact Hrest].
  destruct (Js.truthy i); [|exact Hrest].
  intros [-> | Hr]%elem_of_cons; [|exact (Hrest Hr)].
  exists n. simpl. split_and!; [left | exact Hn | left].
Qed.

Lemma collect_ids_distinct n2i ns (ds : list Dist) :
  (forall n n' i, n2i !! n = Some i -> n2i !! n' = Some i -> n = n') ->
  NoDup ns -> NoDup (map qr_id (collect n2i ns ds)).
Proof.
  intros Hinj. revert ds.
  induction ns as [|n ns IH]; intros [|d ds] Hnd; simpl; try constructor.
  apply NoDup_cons in Hnd as [Hn Hnd].
  destruct (n2i !! n) as [i|] eqn:Hi; [|apply IH, Hnd].
  destruct (Js.truthy i); [|apply IH, Hnd].
  simpl. apply NoDup_cons. split; [|apply IH, Hnd].
  intros Hin. apply list_elem_of_fmap in Hin as (r & Hr & Hin).
  apply collect_from_slot in Hin as (m & Hm & Hid & _).
  rewrite <- Hr in Hid. rewrite (Hinj n m i Hi Hid) in Hn. contradiction.
Qed.

Lemma collect_sorted n2i ns (ds : list Dist) :
  StronglySorted distLe ds ->
  StronglySorted distLe (map qr_distance (collect n2i ns ds)).
Proof.
  revert ds. induction ns as [|n ns IH]; intros [|d ds] Hs; simpl;
    try constructor.
  apply StronglySorted_inv in Hs as [Hs Hall].
  destruct (n2i !! n) as [i|]; [|apply IH, Hs].
  destruct (Js.truthy i); [|apply IH, Hs].
  simpl. constructor; [apply IH, Hs|].
  apply Forall_forall. intros x Hx.
  apply list_elem_of_fmap in Hx as (r & -> & Hr).
  apply collect_from_slot in Hr as (_ & _ & _ & Hd).
  rewrite Forall_forall in Hall. apply Hall, Hd.
Qed.

(** [query], step by step. *)
Lemma query_unfold (text : string) (k : Z) (s : t) :
  query text k s
  = match index s with
    | None => (Err IndexNotInitialized, s)
    | Some b =>
        let actualK := Z.min k (Z.of_nat (getDocumentCount s)) in
        if (actualK =? 0)%Z then (Ok [], s)
        else if negb (embedderLoaded s) then (Err EmbedderUnavailable, s)
        else match embed text with
             | None => (Err EmbedderFailure, s)
             | Some v =>
                 match searchKnn b v actualK with
                 | None => (Err BackendFailure, s)
                 | Some (ns, ds) => (Ok (collect (indexToId s) ns ds), s)
                 end
             end
    end.
Proof.
  unfold query, getEmbedding, bind, gets, ret, throw, getDocumentCount.
  destruct (index s) as [b|]; [|reflexivity]. cbv zeta.
  destruct (_ =? 0)%Z; [reflexivity|].
  destruct (embedderLoaded s); simpl; [|reflexivity].
  destruct (embed text) as [v|]; [|reflexivity].
  destruct (searchKnn b v _) as [[ns ds]|]; reflexivity.
Qed.

(** C6 (as amended). Under the contract of the backend and in a state of
    the facade that satisfies its invariant: whenever [query text k]
    returns, the facade is unchanged and the results number at most
    [min k documentCount], carry pairwise distinct identifiers, all of them
    mapped, and come in order of non-decreasing distance; for [k >= 0] and no
    document the query returns the empty sequence; and when the embedder and
    the backend answer, the query returns the backend's hits in order,
    without the slots that map to no identifier. For a negative [k] the
    query returns nothing at all: it fails. *)
Theorem query_results (text : string) (k : Z) (s : t) :
  facadeInv s ->
  (forall rs s', query text k s = (Ok rs, s') ->
      s' = s
      /\ (Z.of_nat (List.length rs) <= Z.min k (Z.of_nat (getDocumentCount s)))%Z
      /\ NoDup (map qr_id rs)
      /\ StronglySorted distLe (map qr_distance rs)
      /\ (forall r, r ∈ rs -> is_Some (idToIndex s !! qr_id r)))
  /\ (is_Some (index s) -> (0 <= k)%Z -> getDocumentCount s = 0%nat ->
      query text k s = (Ok [], s))
  /\ (forall b v ns ds,
      index s = Some b -> embedderLoaded s = true -> embed text = Some v ->
      Z.min k (Z.of_nat (getDocumentCount s)) <> 0%Z ->
      searchKnn b v (Z.min k (Z.of_nat (getDocumentCount s))) = Some (ns, ds) ->
      query text k s = (Ok (collect (indexToId s) ns ds), s)
      /\ (forall r, r ∈ collect (indexToId s) ns ds ->
            exists n, n ∈ ns /\ indexToId s !! n = Some (qr_id r)))
  /\ ((k < 0)%Z -> forall rs s', query text k s <> (Ok rs, s')).
Proof.
  intros Hinv. rewrite query_unfold. split_and!.
  - intros rs s'. destruct (index s) as [b|]; [|discriminate]. cbv zeta.
    destruct (Z.eqb_spec (Z.min k (Z.of_nat (getDocumentCount s))) 0)
      as [Hzero | Hpos].
    { intros [= <- <-]. rewrite Hzero. simpl.
      split_and!; [reflexivity | lia | constructor | constructor |].
      intros r Hr. apply elem_of_nil in Hr. contradiction. }
    destruct (embedderLoaded s); simpl; [|discriminate].
    destruct (embed text) as [v|]; [|discriminate].
    destruct (searchKnn b v _) as [[ns ds]|] eqn:Hknn; [|discriminate].
    intros [= <- <-]. split_and!.
    + reflexivity.
    + pose proof (collect_length (indexToId s) ns ds).
      pose proof (searchKnn_bound _ _ _ _ _ Hknn). lia.
    + apply collect_ids_distinct; [|eapply searchKnn_distinct, Hknn].
      intros n n' i Hn Hn'.
      apply (inv_inverse s Hinv) in Hn. apply (inv_inverse s Hinv) in Hn'.
      congruence.
    + apply collect_sorted. eapply searchKnn_sorted, Hknn.
    + intros r Hr. apply collect_from_slot in Hr as (n & _ & Hn & _).
      apply (inv_inverse s Hinv) in Hn. eauto.
  - intros [b ->] Hk Hcount. rewrite Hcount. cbv zeta.
    replace (Z.min k (Z.of_nat 0) =? 0)%Z with true; [reflexivity|].
    symmetry. apply Z.eqb_eq. lia.
  - intros b v ns ds -> -> -> Hk Hknn. cbv zeta.
    destruct (Z.eqb_spec (Z.min k (Z.of_nat (getDocumentCount s))) 0)
      as [Hzero | _]; [contradiction|].
    simpl. rewrite Hknn. split; [reflexivity|].
    intros r Hr. apply collect_from_slot in Hr as (n & Hn & Hid & _). eauto.
  - intros Hk rs s'. destruct (index s) as [b|]; [|discriminate]. cbv zeta.
    destruct (Z.eqb_spec (Z.min k (Z.of_nat (getDocumentCount s))) 0)
      as [Hzero | _]; [lia|].
    destruct (embedderLoaded s); simpl; [|discriminate].
    destruct (embed text) as [v|]; [|discriminate].
    destruct (searchKnn b v _) as [[ns ds]|] eqn:Hknn; [|discriminate].
    pose proof (searchKnn_bound _ _ _ _ _ Hknn). lia.
Qed.

End QueryResults.

Section QueryExamples.
#[local] Existing Instance RefAnn.ann.
Import SemanticIndex.

Lemma query_results_witness :
  facadeInv churnedIndex
  /\ query "uncertain times" 3 churnedIndex
     = (Ok [ {| qr_id := "d4e5f6"; qr_distance := 4%nat |} ], churnedIndex).
Proof.
  split; [exact churnedIndex_inv|].
  destruct (@query_results RefAnn.ann RefAnn_laws "uncertain times" 3
              churnedIndex churnedIndex_inv) as (_ & _ & Hrun & _).
  destruct (Hrun (default (RefAnn.new 0) (index churnedIndex))
              "uncertain times" [1%nat] [4%nat]
              ltac:(vm_compute; reflexivity) ltac:(vm_compute; reflexivity)
              ltac:(reflexivity) ltac:(vm_compute; discriminate)
              ltac:(vm_compute; reflexivity)) as [-> _].
  vm_compute. reflexivity.
Defined.

(** C6, as stated, fails for a negative [k]: with no document the query does
    not return the empty sequence.  [Math.min(k, 0)] is [k], not [0], so the
    query goes on to compute the embedding and hands the negative count to
    the backend; on an index that was reset before its embedder was loaded
    it already fails at the embedding, whatever the backend does. *)
Lemma query_results_counterexample :
  getDocumentCount loadedIndex = 0%nat
  /\ is_Some (index loadedIndex)
  /\ fst (query "anything" 1 loadedIndex) = Ok []
  /\ fst (query "anything" (-1) loadedIndex) = Err BackendFailure
  /\ getDocumentCount (snd (reset (create (Some 100%nat)))) = 0%nat
  /\ fst (query "anything" (-1) (snd (reset (create (Some 100%nat)))))
     = Err EmbedderUnavailable.
Proof. vm_compute. eauto 10. Qed.

End QueryExamples.

(* ===================================================================== *)
(** * Properties: the chunk storage                                        *)
(* ===================================================================== *)

Lemma append_length (a b : string) :
  String.length (a +:+ b) = (String.length a + String.length b)%nat.
Proof. induction a as [|x a IH]; simpl; [reflexivity | rewrite IH; reflexivity]. Qed.

Lemma append_prefix_inj (a b x y : string) :
  String.length a = String.length b -> a +:+ x = b +:+ y -> a = b.
Proof.
  revert b. induction a as [|c a IH]; intros [|d b] Hlen Heq; try discriminate.
  - reflexivity.
  - rewrite !append_cons in Heq. injection Heq as -> Heq.
    f_equal. apply IH; [simpl in Hlen; lia | exact Heq].
Qed.

Lemma getFilename_id_inj (id id' s s' : string) :
  String.length id = String.length id' ->
  getFilename id s = getFilename id' s' -> id = id'.
Proof. unfold getFilename. apply append_prefix_inj. Qed.

Lemma getFilename_truthy (id s : string) : Js.truthy (getFilename id s) = true.
Proof.
  unfold getFilename. destruct id as [|a id]; [|reflexivity].
  reflexivity.
Qed.

Section Storage.
Context `{YamlLaws} `{Ann}.

Lemma read_stored (id : string) (w : World) :
  ChunkStorage.read id w = (Ok (stored w id), w).
Proof. reflexivity. Qed.

Lemma stored_mapped (w : World) (id : string) (c : Chunk) :
  stored w id = Some c -> is_Some (idToFilename w !! id).
Proof.
  unfold stored, ChunkStorage.read, gets. simpl.
  destruct (idToFilename w !! id); [eauto | discriminate].
Qed.

Lemma stored_frame (w w' : World) (id : string) :
  sameStorage w w' -> stored w' id = stored w id.
Proof.
  intros [Hf Hm]. unfold stored, ChunkStorage.read, gets. simpl.
  rewrite Hf, Hm. reflexivity.
Qed.

Lemma storeInv_frame (w w' : World) :
  sameStorage w w' -> storeInv w -> storeInv w'.
Proof.
  intros Hs Hinv id fn Hfn. destruct Hs as [Hf Hm]. rewrite Hm in Hfn.
  destruct (Hinv id fn Hfn) as (Hlen & c & Hc & Hid & Hname & Hrt).
  split; [exact Hlen|]. exists c.
  rewrite (stored_frame w w' id (conj Hf Hm)). auto.
Qed.

Lemma storeInv_stored (w : World) (id : string) (c : Chunk) :
  storeInv w -> stored w id = Some c ->
  String.length id = 6%nat /\ c_id c = id /\ roundTrips c
  /\ idToFilename w !! id = Some (getFilename id (c_summary c)).
Proof.
  intros Hinv Hc. destruct (stored_mapped w id c Hc) as [fn Hfn].
  destruct (Hinv id fn Hfn) as (Hlen & c' & Hc' & Hid & Hname & Hrt).
  rewrite Hc in Hc'. injection Hc' as <-. subst fn. auto.
Qed.

(** What [write] leaves behind. *)
Lemma write_run (c : Chunk) (w : World) :
  storeInv w -> String.length (c_id c) = 6%nat ->
  fst (ChunkStorage.write c w) = Ok tt
  /\ stored (snd (ChunkStorage.write c w)) (c_id c) = Some (normalize c)
  /\ (forall id, id <> c_id c ->
        stored (snd (ChunkStorage.write c w)) id = stored w id)
  /\ storeInv (snd (ChunkStorage.write c w)).
Proof.
  intros Hinv Hlen.
  set (fn := getFilename (c_id c) (c_summary c)).
  set (unlinked :=
         match idToFilename w !! c_id c with
         | Some oldFilename =>
             if Js.truthy oldFilename && negb (String.eqb oldFilename fn)
             then delete oldFilename (files w)
             else files w
         | None => files w
         end).
  assert (Hother : forall id fn', id <> c_id c ->
            idToFilename w !! id = Some fn' ->
            (<[fn := serializeChunk c]> unlinked) !! fn' = files w !! fn').
  { intros id fn' Hne Hfn'.
    destruct (Hinv id fn' Hfn') as (Hl & c' & _ & _ & -> & _).
    rewrite lookup_insert_ne.
    2:{ intros Heq. apply getFilename_id_inj in Heq; [congruence|lia]. }
    unfold unlinked.
    destruct (idToFilename w !! c_id c) as [old|] eqn:Hold; [|reflexivity].
    destruct (_ && _); [|reflexivity].
    destruct (Hinv _ old Hold) as (_ & c0 & _ & _ & -> & _).
    rewrite lookup_delete_ne; [reflexivity|].
    intros Heq. apply getFilename_id_inj in Heq; [congruence|lia]. }
  assert (Hself : stored (snd (ChunkStorage.write c w)) (c_id c)
                  = Some (normalize c)).
  { unfold stored, ChunkStorage.read, ChunkStorage.write, gets, modify. simpl.
    rewrite lookup_insert_eq, getFilename_truthy. simpl.
    rewrite lookup_insert_eq, parse_serialize. reflexivity. }
  assert (Hrest : forall id, id <> c_id c ->
            stored (snd (ChunkStorage.write c w)) id = stored w id).
  { intros id Hne.
    unfold stored, ChunkStorage.read, ChunkStorage.write, gets, modify. simpl.
    rewrite lookup_insert_ne by congruence.
    destruct (idToFilename w !! id) as [fn'|] eqn:Hfn'; [|reflexivity].
    fold fn. fold unlinked. rewrite (Hother id fn' Hne Hfn'). reflexivity. }
  split_and!; [reflexivity | exact Hself | exact Hrest |].
  intros id fn' Hfn'. simpl in Hfn'. rewrite lookup_insert in Hfn'.
  case_decide as Hid.
  - subst id. injection Hfn' as <-. split; [exact Hlen|].
    exists (normalize c). split_and!; [exact Hself | reflexivity | reflexivity |].
    apply normalize_roundTrips.
  - destruct (Hinv id fn' Hfn') as (Hl & c' & Hc' & Hcid & Hname & Hrt).
    split; [exact Hl|]. exists c'. rewrite Hrest by congruence. auto.
Qed.

End Storage.

(* ===================================================================== *)
(** * Properties: the orchestrator keeps the storage well formed           *)
(* ===================================================================== *)

Lemma generateUniqueId_frame `{Ann} (w : World) :
  exists n, snd (ChunkStorage.generateUniqueId w) = setRandomReads n w.
Proof.
  unfold ChunkStorage.generateUniqueId, bind, generateId.
  destruct (generateUniqueId_while_spec 100
              (hexOfBytes3 (random w (randomReads w))) 0
              (setRandomReads (S (randomReads w)) w))
    as (n & Hrun & _); [lia | lia |].
  rewrite Hrun. cbv beta iota zeta.
  exists (randomReads (setRandomReads (S (randomReads w)) w) + n)%nat.
  destruct (100 <=? 0 + n)%nat; destruct w; reflexivity.
Qed.

Lemma generateUniqueId_fresh `{Ann} (w : World) (id : string) :
  fst (ChunkStorage.generateUniqueId w) = Ok id ->
  idToFilename w !! id = None /\ String.length id = 6%nat.
Proof.
  intros Hid.
  destruct (generateUniqueId_cases w) as (n & Hn & _ & Hfresh & Hfull).
  destruct (Nat.eq_dec n 100%nat) as [Heq | Hne].
  - rewrite (Hfull Heq) in Hid. discriminate.
  - destruct (Hfresh ltac:(lia)) as [Hex Hres].
    rewrite Hres in Hid. injection Hid as <-. split.
    + unfold ChunkStorage.exists_ in Hex.
      apply bool_decide_eq_false in Hex. apply eq_None_not_Some. exact Hex.
    + pose proof (hexOfBytes3_isHexId (random w (randomReads w + n))) as Hhex.
      unfold isHexId in Hhex. apply andb_prop in Hhex as [Hlen _].
      apply Nat.eqb_eq in Hlen. exact Hlen.
Qed.

Section Orchestrator.
Context `{YamlLaws} `{Ann}.

(** The relation in which the chunks of a start state [w0] stand to their
    later versions, and the property [R] kept by every step of a request:
    the storage is well formed and every chunk of [w0] is still there, in
    relation [rel] to what it was. *)
Variable rel : Chunk -> Chunk -> Prop.
Variable w0 : World.

Local Abbreviation kept := (keptSince rel w0).
Local Abbreviation R := (storeKept rel w0).
Local Abbreviation relKept := (relKeptBy rel).
Local Abbreviation opRel := (opRespects rel).

Lemma R_frame (w w' : World) : sameStorage w w' -> R w -> R w'.
Proof.
  intros Hs [Hinv Hk]. split; [eapply storeInv_frame; eauto|].
  intros id c Hc. rewrite (stored_frame w w' id Hs). apply Hk, Hc.
Qed.

(** Sequencing: [c] keeps [R] and tells [V] about its value, and [k] keeps
    [R] given [V]. *)
Lemma R_bind {A B} (V : A -> World -> Prop) (c : M World A) (k : A -> M World B) :
  (forall w, R w -> R (snd (c w))
                    /\ forall a, fst (c w) = Ok a -> V a (snd (c w))) ->
  (forall a w, R w -> V a w -> R (snd (k a w))) ->
  forall w, R w -> R (snd (bind c k w)).
Proof.
  intros Hc Hk w Hw. unfold bind.
  destruct (Hc w Hw) as [Hw' Hv].
  destruct (c w) as [[a|e] w']; simpl in *; [|exact Hw'].
  apply Hk; [exact Hw' | apply Hv; reflexivity].
Qed.

Lemma R_forEach {A} (F : A -> Prop) (xs : list A) (body : A -> M World unit) :
  (forall x w, F x -> R w -> R (snd (body x w))) ->
  Forall F xs -> forall w, R w -> R (snd (forEach xs body w)).
Proof.
  intros Hbody Hxs. induction Hxs as [|x xs Hx _ IH]; intros w Hw; [exact Hw|].
  simpl. unfold bind.
  pose proof (Hbody x w Hx Hw) as Hw'.
  destruct (body x w) as [[[]|e] w']; simpl in *; [apply IH, Hw' | exact Hw'].
Qed.

Lemma R_nowISO (w : World) : R w -> R (snd (nowISO w)).
Proof. apply R_frame. split; reflexivity. Qed.

Lemma R_onIndex {A} (c : M SemanticIndex.t A) (w : World) :
  R w -> R (snd (onIndex c w)).
Proof.
  apply R_frame. unfold onIndex. destruct (c (semantic w)). split; reflexivity.
Qed.

Lemma R_log action chunkId details (w : World) :
  R w -> R (snd (AuditLog.log action chunkId details w)).
Proof.
  apply R_frame. unfold AuditLog.log, AuditLog.appendFile, bind, nowISO. simpl.
  destruct (auditWritable w); split; reflexivity.
Qed.

Lemma R_generateUniqueId (w : World) :
  R w -> R (snd (ChunkStorage.generateUniqueId w)).
Proof.
  destruct (generateUniqueId_frame w) as [n ->].
  apply R_frame. split; reflexivity.
Qed.

(** Writing a chunk keeps [R] when its id has six characters and the chunk
    read back stands in [rel] to the version of the start state, if any. *)
Lemma R_write (c : Chunk) (w : World) :
  R w -> String.length (c_id c) = 6%nat ->
  (forall c0, stored w0 (c_id c) = Some c0 -> rel c0 (normalize c)) ->
  R (snd (ChunkStorage.write c w)).
Proof.
  intros [Hinv Hk] Hlen Hrel.
  destruct (write_run c w Hinv Hlen) as (_ & Hself & Hrest & Hinv').
  split; [exact Hinv'|].
  intros id c0 Hc0. destruct (decide (id = c_id c)) as [-> | Hne].
  - exists (normalize c). split; [exact Hself | apply Hrel, Hc0].
  - rewrite (Hrest id Hne). apply Hk, Hc0.
Qed.

(** Writing back a changed version [f c] of the chunk [c] stored under [id]. *)
Lemma R_rewrite (f : Chunk -> Chunk) (id : string) (c : Chunk) (w : World) :
  R w -> stored w id = Some c -> c_id (f c) = id ->
  (forall c0, rel c0 c -> rel c0 (normalize (f c))) ->
  R (snd (ChunkStorage.write (f c) w)).
Proof.
  intros HR Hc Hid Hrel.
  destruct (storeInv_stored w id c (proj1 HR) Hc) as (Hlen & _).
  apply R_write; [exact HR | rewrite Hid; exact Hlen |].
  rewrite Hid. intros c0 Hc0.
  destruct (proj2 HR id c0 Hc0) as (c' & Hc' & Hr).
  rewrite Hc in Hc'. injection Hc' as <-. apply Hrel, Hr.
Qed.

Lemma validation_frame (metadata : PartialChunk) (fields : list string) (w : World) :
  snd (forEach fields (fun field =>
         if hasField field metadata then ret tt
         else throw (MissingRequiredField field)) w) = w.
Proof.
  induction fields as [|f fields IH]; [reflexivity|].
  simpl. unfold bind. destruct (hasField f metadata); simpl; [exact IH | reflexivity].
Qed.

Lemma readMany_run (ids : list string) (w : World) :
  ChunkStorage.readMany ids w = (Ok (omap (stored w) ids), w).
Proof.
  induction ids as [|id ids IH]; [reflexivity|].
  simpl. unfold bind. rewrite read_stored, IH. simpl.
  destruct (stored w id); reflexivity.
Qed.

Lemma R_storeChunk content metadata (w : World) :
  R w -> R (snd (MemoryStore.storeChunk content metadata w)).
Proof.
  intros HR. unfold MemoryStore.storeChunk, bind.
  pose proof (validation_frame metadata REQUIRED_FIELDS w) as Hv.
  destruct (forEach REQUIRED_FIELDS _ w) as [[[]|e] w1]; cbn [fst snd] in Hv; subst w1;
    [|exact HR].
  pose proof (R_generateUniqueId w HR) as HR1.
  pose proof (generateUniqueId_fresh w) as Hfresh.
  destruct (generateUniqueId_frame w) as [n Hframe].
  destruct (ChunkStorage.generateUniqueId w) as [[id|e] w1]; cbn [fst snd] in *;
    [|exact HR1].
  destruct (Hfresh id eq_refl) as [Hnew Hlen]. subst w1.
  unfold MemoryStore.getChunkDefaults, bind, nowISO, ret. cbn [fst snd].
  match goal with
  | |- context [ChunkStorage.write ?c ?w'] =>
      assert (HR2 : R (snd (ChunkStorage.write c w')))
  end.
  { apply R_write.
    - eapply R_frame; [|exact HR]. split; reflexivity.
    - exact Hlen.
    - simpl. intros c0 Hc0. destruct (proj2 HR id c0 Hc0) as (c' & Hc' & _).
      apply stored_mapped in Hc' as [fn Hfn]. congruence. }
  match goal with
  | |- context [ChunkStorage.write ?c ?w'] =>
      destruct (ChunkStorage.write c w') as [[[]|e] w2]
  end; cbn [fst snd] in *; [|exact HR2].
  match goal with
  | |- context [onIndex ?c w2] =>
      pose proof (R_onIndex c w2 HR2) as HR3;
      destruct (onIndex c w2) as [[[]|e] w3]
  end; cbn [fst snd] in *; [|exact HR3].
  unfold AuditLog.logStore.
  match goal with
  | |- context [AuditLog.log ?a ?i ?d w3] =>
      pose proof (R_log a i d w3 HR3) as HR4;
      destruct (AuditLog.log a i d w3) as [[[]|e] w4]
  end; cbn [fst snd] in *; exact HR4.
Qed.

Lemma R_updateChunk id metadata content (w : World) :
  (forall now, relKept (MemoryStore.applyUpdate id metadata content now)) ->
  R w -> R (snd (MemoryStore.updateChunk id metadata content w)).
Proof.
  intros Hrel HR. unfold MemoryStore.updateChunk, bind.
  rewrite read_stored. cbn [fst snd].
  destruct (stored w id) as [c|] eqn:Hc; [|exact HR].
  unfold nowISO. cbn [fst snd].
  match goal with
  | |- context [ChunkStorage.write ?c' ?w'] =>
      assert (HR2 : R (snd (ChunkStorage.write c' w')))
  end.
  { apply (R_rewrite (MemoryStore.applyUpdate id metadata content
                        (clock w (clockReads w))) id c).
    - eapply R_frame; [|exact HR]. split; reflexivity.
    - exact Hc.
    - unfold MemoryStore.applyUpdate. destruct content; reflexivity.
    - intros c0 Hr. exact (Hrel _ c0 c Hr). }
  match goal with
  | |- context [ChunkStorage.write ?c' ?w'] =>
      destruct (ChunkStorage.write c' w') as [[[]|e] w2]
  end; cbn [fst snd] in *; [|exact HR2].
  match goal with
  | |- context [onIndex ?c w2] =>
      pose proof (R_onIndex c w2 HR2) as HR3;
      destruct (onIndex c w2) as [[[]|e] w3]
  end; cbn [fst snd] in *; [|exact HR3].
  unfold AuditLog.logUpdate. apply R_log, HR3.
Qed.

Lemma R_markObsolete id reason (w : World) :
  (forall now, relKept (MemoryStore.applyObsolete reason now)) ->
  R w -> R (snd (MemoryStore.markObsolete id reason w)).
Proof.
  intros Hrel HR. unfold MemoryStore.markObsolete, bind.
  rewrite read_stored. cbn [fst snd].
  destruct (stored w id) as [c|] eqn:Hc; [|exact HR].
  unfold nowISO. cbn [fst snd].
  match goal with
  | |- context [ChunkStorage.write ?c' ?w'] =>
      assert (HR2 : R (snd (ChunkStorage.write c' w')))
  end.
  { apply (R_rewrite (MemoryStore.applyObsolete reason (clock w (clockReads w)))
             id c).
    - eapply R_frame; [|exact HR]. split; reflexivity.
    - exact Hc.
    - simpl. apply (storeInv_stored w id c (proj1 HR) Hc).
    - intros c0 Hr. exact (Hrel _ c0 c Hr). }
  match goal with
  | |- context [ChunkStorage.write ?c' ?w'] =>
      destruct (ChunkStorage.write c' w') as [[[]|e] w2]
  end; cbn [fst snd] in *; [|exact HR2].
  unfold AuditLog.logObsolete. apply R_log, HR2.
Qed.

Lemma R_markRelevant ids (w : World) :
  (forall now, relKept (MemoryStore.applyRelevant now)) ->
  R w -> R (snd (MemoryStore.markRelevant ids w)).
Proof.
  intros Hrel HR. unfold MemoryStore.markRelevant, bind, nowISO. cbn [fst snd].
  match goal with
  | |- context [forEach ids ?body ?w'] =>
      assert (HR2 : R (snd (forEach ids body w')))
  end.
  { apply (R_forEach (fun _ => True)).
    - intros id w1 _ HR1. unfold bind. rewrite read_stored. cbn [fst snd].
      destruct (stored w1 id) as [c|] eqn:Hc; [|exact HR1].
      apply (R_rewrite (MemoryStore.applyRelevant (clock w (clockReads w))) id c);
        [exact HR1 | exact Hc | | intros c0 Hr; exact (Hrel _ c0 c Hr)].
      simpl. apply (storeInv_stored w1 id c (proj1 HR1) Hc).
    - apply Forall_forall. auto.
    - eapply R_frame; [|exact HR]. split; reflexivity. }
  match goal with
  | |- context [forEach ids ?body ?w'] =>
      destruct (forEach ids body w') as [[[]|e] w2]
  end; cbn [fst snd] in *; [|exact HR2].
  unfold AuditLog.logRelevant. apply R_log, HR2.
Qed.

Lemma R_query searchText limit (w : World) :
  (forall now, relKept (MemoryStore.touch now)) ->
  R w -> R (snd (MemoryStore.query searchText limit w)).
Proof.
  intros Hrel HR. unfold MemoryStore.query, bind.
  pose proof (R_onIndex (SemanticIndex.query searchText limit) w HR) as HR1.
  destruct (onIndex (SemanticIndex.query searchText limit) w)
    as [[results|e] w1]; cbn [fst snd] in *; [|exact HR1].
  destruct (List.length (map qr_id results) =? 0)%nat; [exact HR1|].
  rewrite readMany_run. unfold nowISO. cbn [fst snd].
  match goal with
  | |- context [forEach ?chunks ?body ?w'] =>
      assert (HR2 : R (snd (forEach chunks body w')))
  end.
  { apply (R_forEach (fun c =>
             String.length (c_id c) = 6%nat
             /\ forall c0, stored w0 (c_id c) = Some c0 ->
                  rel c0 (normalize (MemoryStore.touch (clock w1 (clockReads w1)) c)))).
    - intros c w2 [Hlen Hc0] HR2. apply R_write; [exact HR2 | exact Hlen | exact Hc0].
    - apply Forall_forall. intros c Hc.
      apply list_elem_of_omap in Hc as (id & _ & Hc).
      destruct (storeInv_stored w1 id c (proj1 HR1) Hc) as (Hlen & Hid & _).
      subst id. split; [exact Hlen|].
      intros c0 Hc0. destruct (proj2 HR1 _ c0 Hc0) as (c' & Hc' & Hr).
      rewrite Hc in Hc'. injection Hc' as <-. exact (Hrel _ c0 c Hr).
    - eapply R_frame; [|exact HR1]. split; reflexivity. }
  match goal with
  | |- context [forEach ?chunks ?body ?w'] =>
      destruct (forEach chunks body w') as [[[]|e] w2]
  end; cbn [fst snd] in *; [|exact HR2].
  unfold AuditLog.logQuery, AuditLog.logRetrieve.
  match goal with
  | |- context [AuditLog.log ?a ?i ?d w2] =>
      pose proof (R_log a i d w2 HR2) as HR3;
      destruct (AuditLog.log a i d w2) as [[[]|e] w3]
  end; cbn [fst snd] in *; [|exact HR3].
  match goal with
  | |- context [AuditLog.log ?a ?i ?d w3] =>
      pose proof (R_log a i d w3 HR3) as HR4;
      destruct (AuditLog.log a i d w3) as [[[]|e] w4]
  end; cbn [fst snd] in *; exact HR4.
Qed.

Lemma R_perform (op : MemoryStore.Op) (w : World) :
  opRel op -> R w -> R (snd (MemoryStore.perform op w)).
Proof.
  intros Hop HR. destruct op as [content m | id m content | ids | text limit | ids | id reason];
    simpl in *.
  - unfold bind. pose proof (R_storeChunk content m w HR) as HR1.
    destruct (MemoryStore.storeChunk content m w) as [[a|e] w1]; exact HR1.
  - apply R_updateChunk; assumption.
  - unfold bind, MemoryStore.getChunks. rewrite readMany_run. exact HR.
  - unfold bind. pose proof (R_query text limit w Hop HR) as HR1.
    destruct (MemoryStore.query text limit w) as [[a|e] w1]; exact HR1.
  - apply R_markRelevant; assumption.
  - apply R_markObsolete; assumption.
Qed.

Lemma R_performAll (ops : list MemoryStore.Op) :
  Forall opRel ops -> forall w, R w -> R (MemoryStore.performAll ops w).
Proof.
  induction 1 as [|op ops Hop _ IH]; intros w HR; [exact HR|].
  unfold MemoryStore.performAll in *. simpl. apply IH, R_perform; assumption.
Qed.

End Orchestrator.

Lemma storeInv_perform `{YamlLaws} `{Ann} (op : MemoryStore.Op) (w : World) :
  storeInv w -> storeInv (snd (MemoryStore.perform op w)).
Proof.
  intros Hinv.
  apply (R_perform (fun _ _ => True) w op w).
  - destruct op; simpl; unfold relKeptBy; auto.
  - split; [exact Hinv|]. intros id c Hc. eauto.
Qed.

Lemma storeInv_performAll `{YamlLaws} `{Ann} (ops : list MemoryStore.Op) :
  forall w, storeInv w -> storeInv (MemoryStore.performAll ops w).
Proof.
  induction ops as [|op ops IH]; intros w Hinv; [exact Hinv|].
  unfold MemoryStore.performAll in *. simpl. apply IH, storeInv_perform, Hinv.
Qed.

Lemma onIndex_storage `{Ann} {A} (c : M SemanticIndex.t A) (w : World) :
  sameStorage w (snd (onIndex c w)).
Proof. unfold onIndex. destruct (c (semantic w)). split; reflexivity. Qed.

Lemma log_storage `{Ann} action chunkId details (w : World) :
  sameStorage w (snd (AuditLog.log action chunkId details w)).
Proof.
  unfold AuditLog.log, AuditLog.appendFile, bind, nowISO. cbn [fst snd].
  destruct (auditWritable _); split; reflexivity.
Qed.

(** A store initialised over an empty chunk directory is well formed. *)
Lemma storeInv_initialize `{YamlLaws} `{Ann} log writable clk rnd :
  storeInv (snd (MemoryStore.initialize
                   (MemoryStore.create ∅ log writable clk rnd))).
Proof.
  assert (Hempty : idToFilename (snd (MemoryStore.initialize
                     (MemoryStore.create ∅ log writable clk rnd))) = ∅).
  { unfold MemoryStore.initialize, MemoryStore.create, bind, gets.
    cbn [fst snd initialized].
    unfold ChunkStorage.initialize, ChunkStorage.buildIndex, modify.
    cbn [fst snd]. unfold AuditLog.initialize, ret. cbn [fst snd].
    unfold ChunkStorage.readdir. cbn [files].
    rewrite map_to_list_empty. cbn [fmap list_fmap foldl].
    match goal with
    | |- context [onIndex SemanticIndex.init ?w] =>
        pose proof (onIndex_storage SemanticIndex.init w) as [_ S1];
        destruct (onIndex SemanticIndex.init w) as [[[]|e] w1]
    end; cbn [fst snd idToFilename setIdToFilename] in *; [|exact S1].
    unfold MemoryStore.rebuildIndex, bind.
    pose proof (onIndex_storage SemanticIndex.reset w1) as [_ S2].
    destruct (onIndex SemanticIndex.reset w1) as [[[]|e] w2];
      cbn [fst snd] in *; [|congruence].
    unfold gets. cbn [fst snd]. unfold ChunkStorage.getAllIds.
    replace (idToFilename w2) with (∅ : gmap string string) by congruence.
    rewrite map_to_list_empty. cbn [fmap list_fmap forEach ret fst snd].
    match goal with
    | |- context [AuditLog.log ?a ?i ?d w2] =>
        pose proof (log_storage a i d w2) as [_ S3];
        destruct (AuditLog.log a i d w2) as [[[]|e] w3]
    end; cbn [fst snd] in *; [|congruence].
    cbn [idToFilename setInitialized]. congruence. }
  intros id fn Hfn. rewrite Hempty, lookup_empty in Hfn. discriminate.
Qed.

(* ===================================================================== *)
(** * Claim C2: the counters of a chunk                                    *)
(* ===================================================================== *)

Lemma respectsCounters_opRespects (op : MemoryStore.Op) :
  respectsCounters op -> opRespects countersLe op.
Proof.
  unfold countersLe.
  destruct op as [content m | id m content | ids | text limit | ids | id reason];
    simpl; unfold relKeptBy; auto.
  - intros [Hr Hl] now c0 c [H1 H2].
    unfold MemoryStore.applyUpdate. destruct content; simpl; rewrite Hr, Hl; simpl; lia.
  - intros _ now c0 c [H1 H2]. simpl. lia.
  - intros _ now c0 c [H1 H2]. simpl. lia.
Qed.

(** C2 (as amended). From any well-formed state of the storage, such as a
    store initialised over an empty directory and taken through any sequence
    [earlier] of requests: along every further sequence [later] of requests
    none of which is an [updateChunk] whose metadata carries
    [retrieved_count] or [relevant_count], every chunk stays stored and
    neither its [retrieved_count] nor its [relevant_count] gets smaller. *)
Theorem counters_never_decrease `{YamlLaws} `{Ann}
    (w : World) (earlier later : list MemoryStore.Op) :
  storeInv w -> Forall respectsCounters later ->
  countersGrow (MemoryStore.performAll earlier w)
               (MemoryStore.performAll later (MemoryStore.performAll earlier w)).
Proof.
  intros Hinv Hlater.
  pose proof (storeInv_performAll earlier w Hinv) as Hmid.
  destruct (R_performAll countersLe (MemoryStore.performAll earlier w) later)
    with (w := MemoryStore.performAll earlier w) as [_ Hk].
  - eapply Forall_impl; [exact Hlater|]. apply respectsCounters_opRespects.
  - split; [exact Hmid|]. intros id c Hc. exists c. unfold countersLe.
    split; [exact Hc | lia].
  - intros id c Hc. destruct (Hk id c Hc) as (c' & Hc' & Hr1 & Hr2). eauto.
Qed.

Section CounterExamples.
#[local] Existing Instance RefYaml.codec.
#[local] Existing Instance RefAnn.ann.

Lemma freshStore_inv : storeInv freshStore.
Proof. apply storeInv_initialize. Qed.

Lemma counters_never_decrease_witness :
  storeInv freshStore
  /\ Forall respectsCounters [MemoryStore.OpQuery "hello" 1; MemoryStore.OpMarkRelevant ["abcd00"]]
  /\ countersGrow
       (MemoryStore.performAll storedAndQueried freshStore)
       (MemoryStore.performAll
          [MemoryStore.OpQuery "hello" 1; MemoryStore.OpMarkRelevant ["abcd00"]]
          (MemoryStore.performAll storedAndQueried freshStore)).
Proof.
  assert (Hops : Forall respectsCounters
            [MemoryStore.OpQuery "hello" 1; MemoryStore.OpMarkRelevant ["abcd00"]])
    by (repeat constructor).
  split; [exact freshStore_inv|]. split; [exact Hops|].
  exact (@counters_never_decrease RefYaml.codec RefYaml_laws RefAnn.ann
           freshStore storedAndQueried _ freshStore_inv Hops).
Defined.

(** C2, as stated, fails: [updateChunk] with [retrieved_count: 0] in its
    metadata takes the counter of a chunk that was retrieved once back
    to zero. *)
Lemma counters_never_decrease_counterexample :
  fmap c_retrieved_count
    (stored (MemoryStore.performAll storedAndQueried freshStore) "abcd00")
  = Some 1%Z
  /\ fmap c_retrieved_count
       (stored (MemoryStore.performAll
                  (storedAndQueried
                     ++ [MemoryStore.OpUpdateChunk "abcd00" resetRetrieved None])
                  freshStore) "abcd00")
     = Some 0%Z.
Proof. vm_compute. auto. Qed.

End CounterExamples.

(* ===================================================================== *)
(** * Claims C7 and C8: markObsolete and updateChunk                       *)
(* ===================================================================== *)

Lemma obsoleteNote_not_empty (reason : string) :
  MemoryStore.obsoleteNote reason <> EmptyString.
Proof. unfold MemoryStore.obsoleteNote. discriminate. Qed.

Lemma obsoleteNotes_not_empty (reason : string) (old : option string) :
  MemoryStore.obsoleteNotes reason old <> EmptyString.
Proof.
  unfold MemoryStore.obsoleteNotes. destruct old as [[|a notes]|]; simpl;
    try apply obsoleteNote_not_empty.
  rewrite append_cons. discriminate.
Qed.

Lemma applyObsolete_roundTrips (reason now : string) (c : Chunk) :
  roundTrips c -> roundTrips (MemoryStore.applyObsolete reason now c).
Proof.
  intros (Hb & Hr & Hd & He & Hn). unfold roundTrips. simpl.
  split_and!; try assumption.
  intros [= Hempty]. exact (obsoleteNotes_not_empty _ _ Hempty).
Qed.

Lemma log_result `{Ann} action chunkId details (w : World) :
  fst (AuditLog.log action chunkId details w)
  = if auditWritable w then Ok tt else Err AuditAppendFailure.
Proof.
  unfold AuditLog.log, AuditLog.appendFile, bind, nowISO. cbn [fst snd].
  change (auditWritable (setClockReads (S (clockReads w)) w))
    with (auditWritable w).
  destruct (auditWritable w); reflexivity.
Qed.


Lemma write_ok `{YamlCodec} `{Ann} (c : Chunk) (w : World) :
  ChunkStorage.write c w = (Ok tt, snd (ChunkStorage.write c w)).
Proof. reflexivity. Qed.


Section ObsoleteAndUpdate.
Context `{YamlLaws} `{Ann}.

(** [markObsolete] on a stored chunk: the outcome, and the storage after. *)
Lemma markObsolete_run (id reason : string) (w : World) (c : Chunk) :
  stored w id = Some c ->
  fst (MemoryStore.markObsolete id reason w)
  = (if auditWritable w then Ok tt else Err AuditAppendFailure)
  /\ sameStorage
       (snd (ChunkStorage.write
               (MemoryStore.applyObsolete reason (clock w (clockReads w)) c)
               (snd (nowISO w))))
       (snd (MemoryStore.markObsolete id reason w)).
Proof.
  intros Hc. unfold MemoryStore.markObsolete, bind.
  rewrite read_stored. cbn [fst snd]. rewrite Hc.
  unfold nowISO. cbn [fst snd].
  rewrite write_ok. cbn [fst snd].
  unfold AuditLog.logObsolete.
  match goal with
  | |- context [AuditLog.log ?a ?i ?d ?w2] =>
      pose proof (log_result a i d w2) as Hres;
      pose proof (log_storage a i d w2) as Hst;
      destruct (AuditLog.log a i d w2) as [r w3]
  end.
  cbn [fst snd] in *. split; [exact Hres | exact Hst].
Qed.


End ObsoleteAndUpdate.

(** C7. In a well-formed state of the storage, under the contract of the
    YAML package: if no chunk is stored under [id], [markObsolete id reason]
    fails with [ChunkNotFound] and the state is unchanged; if a chunk [c] is
    stored there, then afterwards the chunk stored under [id] has status
    [archived], context notes that are [[Obsoleted: reason]], preceded by the
    previous notes and a line feed when there were notes, [updated] set to
    the instant of the call, and every other field as in [c]; the other
    chunks are untouched; and the call returns unless the audit append
    fails. *)
Theorem markObsolete_archives `{YamlLaws} `{Ann} (id reason : string) (w : World) :
  storeInv w ->
  (stored w id = None ->
     MemoryStore.markObsolete id reason w = (Err (ChunkNotFound id), w))
  /\ (forall c, stored w id = Some c ->
      exists c',
        stored (snd (MemoryStore.markObsolete id reason w)) id = Some c'
        /\ c_status c' = archived
        /\ c_context_notes c'
           = Some (match c_context_notes c with
                   | Some old => old +:+ LF +:+ "[Obsoleted: " +:+ reason +:+ "]"
                   | None => "[Obsoleted: " +:+ reason +:+ "]"
                   end)
        /\ c_updated c' = clock w (clockReads w)
        /\ c_id c' = c_id c /\ c_content c' = c_content c
        /\ c_summary c' = c_summary c /\ c_type c' = c_type c
        /\ c_epistemic c' = c_epistemic c
        /\ c_surface_tags c' = c_surface_tags c /\ c_related c' = c_related c
        /\ c_created c' = c_created c /\ c_accessed c' = c_accessed c
        /\ c_retrieved_count c' = c_retrieved_count c
        /\ c_relevant_count c' = c_relevant_count c
        /\ c_last_relevant_date c' = c_last_relevant_date c
        /\ c_expires c' = c_expires c
        /\ (forall id', id' <> id ->
              stored (snd (MemoryStore.markObsolete id reason w)) id'
              = stored w id')
        /\ fst (MemoryStore.markObsolete id reason w)
           = (if auditWritable w then Ok tt else Err AuditAppendFailure)).
Proof.
  intros Hinv. split.
  - intros Hnone. unfold MemoryStore.markObsolete, bind.
    rewrite read_stored. cbn [fst snd]. rewrite Hnone. reflexivity.
  - intros c Hc.
    destruct (storeInv_stored w id c Hinv Hc) as (Hlen & Hid & Hrt & _).
    destruct (markObsolete_run id reason w c Hc) as [Hres Hsame].
    set (c1 := MemoryStore.applyObsolete reason (clock w (clockReads w)) c) in *.
    assert (Hinv1 : storeInv (snd (nowISO w))).
    { eapply storeInv_frame; [|exact Hinv]. split; reflexivity. }
    assert (Hc1 : c_id c1 = id) by (unfold c1; simpl; exact Hid).
    destruct (write_run c1 (snd (nowISO w)) Hinv1) as (_ & Hself & Hrest & _).
    { rewrite Hc1. exact Hlen. }
    rewrite Hc1 in Hself, Hrest.
    exists c1.
    assert (Hnotes : c_context_notes c1
              = Some (match c_context_notes c with
                      | Some old => old +:+ LF +:+ "[Obsoleted: " +:+ reason +:+ "]"
                      | None => "[Obsoleted: " +:+ reason +:+ "]"
                      end)).
    { unfold c1. simpl. unfold MemoryStore.obsoleteNotes.
      destruct Hrt as (_ & _ & _ & _ & Hn).
      destruct (c_context_notes c) as [[|a old]|]; [congruence | |]; reflexivity. }
    split_and!; try reflexivity; try exact Hnotes.
    + rewrite (stored_frame _ _ id Hsame).
      rewrite Hself. f_equal. apply normalize_fixed.
      apply applyObsolete_roundTrips, Hrt.
    + intros id' Hne. rewrite (stored_frame _ _ id' Hsame).
      apply Hrest, Hne.
    + exact Hres.
Qed.


Section LifecycleExamples.
#[local] Existing Instance RefYaml.codec.
#[local] Existing Instance RefAnn.ann.

Lemma storeAfterS4_inv : storeInv storeAfterS4.
Proof. apply storeInv_performAll, freshStore_inv. Qed.

(** Scenario S5. *)
Lemma markObsolete_archives_witness :
  storeInv storeAfterS4
  /\ fmap c_status
       (stored (snd (MemoryStore.markObsolete "abcd00" "superseded by xyz"
                       storeAfterS4)) "abcd00")
     = Some archived
  /\ fmap c_context_notes
       (stored (snd (MemoryStore.markObsolete "abcd00" "superseded by xyz"
                       storeAfterS4)) "abcd00")
     = Some (Some "[Obsoleted: superseded by xyz]").
Proof.
  split; [exact storeAfterS4_inv|].
  destruct (@markObsolete_archives RefYaml.codec RefYaml_laws RefAnn.ann
              "abcd00" "superseded by xyz" storeAfterS4 storeAfterS4_inv)
    as [_ Hsome].
  destruct (stored storeAfterS4 "abcd00") as [c|] eqn:Hc;
    [|vm_compute in Hc; discriminate].
  assert (Hnotes : c_context_notes c = None).
  { vm_compute in Hc. injection Hc as <-. reflexivity. }
  destruct (Hsome c eq_refl) as (c' & -> & Hst & Hn & _).
  rewrite Hnotes in Hn. simpl. rewrite Hst, Hn. auto.
Defined.



End LifecycleExamples.

(* ===================================================================== *)
(** * Claim C1: a failing audit append                                     *)
(* ===================================================================== *)

Create HintDb blind.

Section AuditBlind.
Context `{YamlCodec} `{Ann}.

Lemma blind_ret {A} (a : A) : auditBlind (ret a).
Proof. intros b w. reflexivity. Qed.

Lemma blind_throw {A} (e : error) : auditBlind (throw (A := A) e).
Proof. intros b w. reflexivity. Qed.

Lemma blind_bind {A B} (c : M World A) (k : A -> M World B) :
  auditBlind c -> (forall a, auditBlind (k a)) -> auditBlind (bind c k).
Proof.
  intros Hc Hk b w. unfold bind. rewrite (Hc b w).
  destruct (c w) as [[a|e] w1]; cbn [fst snd]; [apply Hk | reflexivity].
Qed.

Lemma blind_forEach {A} (xs : list A) (body : A -> M World unit) :
  (forall x, auditBlind (body x)) -> auditBlind (forEach xs body).
Proof.
  intros Hbody. induction xs as [|x xs IH]; [apply blind_ret|].
  simpl. apply blind_bind; [apply Hbody | intros _; exact IH].
Qed.

Lemma blind_nowISO : auditBlind nowISO.
Proof. intros b w. reflexivity. Qed.

Lemma blind_generateId : auditBlind generateId.
Proof. intros b w. reflexivity. Qed.

Lemma blind_onIndex {A} (c : M SemanticIndex.t A) : auditBlind (onIndex c).
Proof.
  intros b w. unfold onIndex.
  change (semantic (setAuditWritable b w)) with (semantic w).
  destruct (c (semantic w)). reflexivity.
Qed.

Lemma blind_read (id : string) : auditBlind (ChunkStorage.read id).
Proof. intros b w. reflexivity. Qed.

Lemma blind_write (c : Chunk) : auditBlind (ChunkStorage.write c).
Proof. intros b w. reflexivity. Qed.

Lemma blind_readMany (ids : list string) : auditBlind (ChunkStorage.readMany ids).
Proof.
  induction ids as [|id ids IH]; [apply blind_ret|].
  simpl. apply blind_bind; [apply blind_read|]. intros chunk.
  apply blind_bind; [exact IH|]. intros chunks. apply blind_ret.
Qed.

Lemma blind_generateUniqueId_while (fuel : nat) :
  forall id attempts, auditBlind (ChunkStorage.generateUniqueId_while fuel id attempts).
Proof.
  induction fuel as [|fuel IH]; intros id attempts b w; simpl;
    change (ChunkStorage.exists_ id (setAuditWritable b w))
      with (ChunkStorage.exists_ id w);
    destruct (ChunkStorage.exists_ id w && (attempts <? 100)%nat);
    try reflexivity.
  apply (blind_bind generateId); [apply blind_generateId|].
  intros id'. apply IH.
Qed.

Lemma blind_generateUniqueId : auditBlind ChunkStorage.generateUniqueId.
Proof.
  unfold ChunkStorage.generateUniqueId.
  apply blind_bind; [apply blind_generateId|]. intros id0.
  apply blind_bind; [apply blind_generateUniqueId_while|]. intros [id attempts].
  destruct (100 <=? attempts)%nat; [apply blind_throw | apply blind_ret].
Qed.

Lemma blind_getChunkDefaults : auditBlind MemoryStore.getChunkDefaults.
Proof.
  unfold MemoryStore.getChunkDefaults.
  apply blind_bind; [apply blind_nowISO|]. intros now. apply blind_ret.
Qed.

End AuditBlind.

#[export] Hint Resolve blind_ret blind_throw blind_nowISO blind_generateId
  blind_onIndex blind_read blind_write blind_readMany blind_generateUniqueId
  blind_getChunkDefaults : blind.

Section AuditFailure.
Context `{YamlCodec} `{Ann}.

(** Past a step that is blind to the audit file, the question is the same
    for the rest of the request. *)
Lemma surfaces_step {A B} (P : B -> Prop) (c : M World A) (k : A -> M World B)
    (w : World) :
  auditBlind c ->
  (forall x, fst (c w) = Ok x -> surfacesWhen P (k x) (snd (c w))) ->
  surfacesWhen P (bind c k) w.
Proof.
  intros Hc Hk a wA. unfold bind. rewrite !Hc.
  destruct (c w) as [[x|e] w1]; cbn [fst snd] in *; [|discriminate].
  apply (Hk x eq_refl).
Qed.

Lemma log_touches_audit_only action chunkId details (w : World) :
  files (snd (AuditLog.log action chunkId details w)) = files w
  /\ idToFilename (snd (AuditLog.log action chunkId details w)) = idToFilename w
  /\ semantic (snd (AuditLog.log action chunkId details w)) = semantic w.
Proof.
  unfold AuditLog.log, AuditLog.appendFile, bind, nowISO. cbn [fst snd].
  destruct (auditWritable _); auto.
Qed.

(** A request that ends in appends to the audit file, and in nothing that
    touches the storage or the index. *)
Lemma surfaces_log {B} (P : B -> Prop) action chunkId details
    (k : unit -> M World B) (w : World) :
  (forall w', files (snd (k tt w')) = files w'
              /\ idToFilename (snd (k tt w')) = idToFilename w'
              /\ semantic (snd (k tt w')) = semantic w') ->
  surfacesWhen P (bind (AuditLog.log action chunkId details) k) w.
Proof.
  intros Hk a wA. unfold bind.
  pose proof (log_result action chunkId details (setAuditWritable true w)) as Rt.
  pose proof (log_result action chunkId details (setAuditWritable false w)) as Rf.
  destruct (log_touches_audit_only action chunkId details
              (setAuditWritable true w)) as (Ft & Mt & St).
  destruct (log_touches_audit_only action chunkId details
              (setAuditWritable false w)) as (Ff & Mf & Sf).
  destruct (AuditLog.log action chunkId details (setAuditWritable true w))
    as [rt wt].
  destruct (AuditLog.log action chunkId details (setAuditWritable false w))
    as [rf wf].
  cbn [fst snd auditWritable setAuditWritable] in *. subst rt rf.
  intros Hrun _. destruct (Hk wt) as (Hf & Hm & Hs).
  destruct (k tt wt) as [r w2]. cbn [fst snd] in *. injection Hrun as _ <-.
  cbn [files idToFilename semantic setAuditWritable] in *.
  split_and!; [reflexivity | congruence | congruence | congruence].
Qed.

Lemma surfaces_log_last action chunkId details (w : World) :
  surfacesWhen (fun _ => True) (AuditLog.log action chunkId details) w.
Proof.
  intros a wA.
  pose proof (log_result action chunkId details (setAuditWritable false w)) as Rf.
  destruct (log_touches_audit_only action chunkId details
              (setAuditWritable true w)) as (Ft & Mt & St).
  destruct (log_touches_audit_only action chunkId details
              (setAuditWritable false w)) as (Ff & Mf & Sf).
  intros Hrun _. rewrite Hrun in Ft, Mt, St.
  cbn [fst snd files idToFilename semantic auditWritable setAuditWritable] in *.
  split_and!; [exact Rf | congruence | congruence | congruence].
Qed.

Lemma surfaces_throw {A} (P : A -> Prop) (e : error) (w : World) :
  surfacesWhen P (throw e) w.
Proof. intros a wA Hrun. discriminate. Qed.

Lemma surfaces_storeChunk content metadata (w : World) :
  auditFailureSurfaces (MemoryStore.storeChunk content metadata) w.
Proof.
  unfold auditFailureSurfaces, MemoryStore.storeChunk.
  apply surfaces_step.
  { apply blind_forEach. intros field.
    destruct (hasField field metadata); auto with blind. }
  intros [] _. apply surfaces_step; [auto with blind|]. intros id _.
  apply surfaces_step; [auto with blind|]. intros defaults _.
  apply surfaces_step; [auto with blind|]. intros [] _.
  apply surfaces_step; [auto with blind|]. intros [] _.
  unfold AuditLog.logStore. apply surfaces_log. intros w'. auto.
Qed.

Lemma surfaces_updateChunk id metadata content (w : World) :
  auditFailureSurfaces (MemoryStore.updateChunk id metadata content) w.
Proof.
  unfold auditFailureSurfaces, MemoryStore.updateChunk.
  apply surfaces_step; [auto with blind|]. intros [existing|] _;
    [|apply surfaces_throw].
  apply surfaces_step; [auto with blind|]. intros now _.
  apply surfaces_step; [auto with blind|]. intros [] _.
  apply surfaces_step; [auto with blind|]. intros [] _.
  unfold AuditLog.logUpdate. apply surfaces_log_last.
Qed.

Lemma surfaces_markRelevant ids (w : World) :
  auditFailureSurfaces (MemoryStore.markRelevant ids) w.
Proof.
  unfold auditFailureSurfaces, MemoryStore.markRelevant.
  apply surfaces_step; [auto with blind|]. intros now _.
  apply surfaces_step.
  { apply blind_forEach. intros id. apply blind_bind; [auto with blind|].
    intros [c|]; auto with blind. }
  intros [] _. unfold AuditLog.logRelevant. apply surfaces_log_last.
Qed.

Lemma surfaces_markObsolete id reason (w : World) :
  auditFailureSurfaces (MemoryStore.markObsolete id reason) w.
Proof.
  unfold auditFailureSurfaces, MemoryStore.markObsolete.
  apply surfaces_step; [auto with blind|]. intros [c|] _;
    [|apply surfaces_throw].
  apply surfaces_step; [auto with blind|]. intros now _.
  apply surfaces_step; [auto with blind|]. intros [] _.
  unfold AuditLog.logObsolete. apply surfaces_log_last.
Qed.

Lemma surfaces_query searchText limit (w : World) :
  surfacesWhen (fun metas => metas <> []) (MemoryStore.query searchText limit) w.
Proof.
  unfold MemoryStore.query.
  apply surfaces_step; [auto with blind|]. intros results _.
  destruct (List.length (map qr_id results) =? 0)%nat.
  { intros a wA [= <- _] Hne. congruence. }
  apply surfaces_step; [auto with blind|]. intros chunks _.
  apply surfaces_step; [auto with blind|]. intros now _.
  apply surfaces_step.
  { apply blind_forEach. intros chunk. auto with blind. }
  intros [] _. unfold AuditLog.logQuery, AuditLog.logRetrieve.
  apply surfaces_log. intros w'. unfold bind.
  destruct (log_touches_audit_only RETRIEVE None
              (Some (DIds (map qr_id results))) w') as (Hf & Hm & Hs).
  destruct (AuditLog.log RETRIEVE None _ w') as [[[]|e] w2]; auto.
Qed.

End AuditFailure.

(** C1 (as amended). For [storeChunk], [updateChunk], [markRelevant] and
    [markObsolete], and for a [query] that returns at least one chunk: if
    the request returns when the audit file can be appended to, then with a
    failing append the same request fails with the append error, which is
    not swallowed; the chunk directory, the id-to-filename map and the
    semantic index are then exactly as the successful request leaves them,
    so what was written to the storage stays written. *)
Theorem audit_failure_surfaces `{YamlCodec} `{Ann} (w : World) :
  (forall content metadata,
      auditFailureSurfaces (MemoryStore.storeChunk content metadata) w)
  /\ (forall id metadata content,
      auditFailureSurfaces (MemoryStore.updateChunk id metadata content) w)
  /\ (forall ids, auditFailureSurfaces (MemoryStore.markRelevant ids) w)
  /\ (forall id reason,
      auditFailureSurfaces (MemoryStore.markObsolete id reason) w)
  /\ (forall searchText limit,
      surfacesWhen (fun metas => metas <> [])
        (MemoryStore.query searchText limit) w).
Proof.
  split_and!.
  - intros. apply surfaces_storeChunk.
  - intros. apply surfaces_updateChunk.
  - intros. apply surfaces_markRelevant.
  - intros. apply surfaces_markObsolete.
  - intros. apply surfaces_query.
Qed.

Section AuditExamples.
#[local] Existing Instance RefYaml.codec.
#[local] Existing Instance RefAnn.ann.

(** C1, as stated, fails: a [storeChunk] that returns the new id when the
    audit file can be appended to, writes the chunk and then fails with the
    append error when it cannot. *)
Lemma audit_failure_counterexample :
  fst (MemoryStore.storeChunk "hello world" greeting
         (setAuditWritable true freshStore))
  = Ok "abcd00"
  /\ fst (MemoryStore.storeChunk "hello world" greeting
            (setAuditWritable false freshStore))
     = Err AuditAppendFailure
  /\ fmap c_content
       (stored (snd (MemoryStore.storeChunk "hello world" greeting
                       (setAuditWritable false freshStore))) "abcd00")
     = Some "hello world".
Proof. vm_compute. auto. Qed.

End AuditExamples.
